(** * bolt-fincalc: the time-value-of-money solver of [src/App.tsx]

    A shallow embedding of the calculator's numeric core
    ([frequencyMap], [getEffectiveRate], [calculateInterestRate], [solveFor])
    over IEEE-754 binary64 numbers, which is what a JavaScript [number] is.

    Layout:
    - [JS]: the JavaScript built-ins the source calls ([parseFloat], [**],
      [Math.log], [Math.abs], [Number.prototype.toFixed]), following ECMA-262;
    - [Arith]: the arithmetic signature the source's formulas are written in,
      with its binary64 instance (the program) and its instance over the real
      numbers (the exact-arithmetic reading of the same formulas);
    - the component: state, frequency table, formulas, solver;
    - the theorems. *)

From Stdlib Require Import ZArith List String Ascii Bool Lia Floats Reals Lra.
From Stdlib Require Import DecimalString.
Import ListNotations.

#[global] Set Warnings "-inexact-float".

(* ===================================================================== *)
(** * JavaScript numbers and the built-ins used by the source             *)
(* ===================================================================== *)

Module JS.

(** ** Classification of a binary64 value *)

Definition isNaN (x : float) : bool :=
  match Prim2SF x with S754_nan => true | _ => false end.

Definition isZero (x : float) : bool :=
  match Prim2SF x with S754_zero _ => true | _ => false end.

(** [Number.isFinite]: neither NaN nor an infinity. *)
Definition isFinite (x : float) : bool :=
  match Prim2SF x with
  | S754_zero _ | S754_finite _ _ _ => true
  | S754_nan | S754_infinity _ => false
  end.

(** A value that is [+0], [-0] or NaN: what a product with a zero can be. *)
Definition zero_or_nan (x : float) : bool := isZero x || isNaN x.

(** The mathematical value of [x] when it is an integer. *)
Definition integral_value (x : float) : option Z :=
  match Prim2SF x with
  | S754_zero _ => Some 0%Z
  | S754_finite s m e =>
      if (0 <=? e)%Z then Some (cond_Zopp s (Zpos m * 2 ^ e))
      else if (Zpos m mod 2 ^ (- e) =? 0)%Z
           then Some (cond_Zopp s (Zpos m / 2 ^ (- e)))
           else None
  | S754_nan | S754_infinity _ => None
  end.

Definition isInteger (x : float) : bool :=
  match integral_value x with Some _ => true | None => false end.

Definition isOddInteger (x : float) : bool :=
  match integral_value x with Some z => Z.odd z | None => false end.

(** ** The implementation-approximated part of [Math]

    ECMA-262 fixes [**] and [Math.log] on the special values and leaves the
    remaining finite cases to an "implementation-approximated" result.
    The model keeps exactly that split: the special cases are written out
    below, the approximated cases are the two fields of this class. *)

Class MathLib : Type := {
  pow_approx : float -> float -> float;
  log_approx : float -> float
}.

Section Builtins.
Context {M : MathLib}.
Local Open Scope float_scope.

(** [Number::exponentiate (base, exponent)], the [**] operator. *)
Definition exponentiate (base exponent : float) : float :=
  if isNaN exponent then nan
  else if isZero exponent then 1
  else
    match Prim2SF base with
    | S754_nan => nan
    | S754_infinity false =>
        if 0 <? exponent then infinity else 0
    | S754_infinity true =>
        if 0 <? exponent
        then (if isOddInteger exponent then neg_infinity else infinity)
        else (if isOddInteger exponent then neg_zero else 0)
    | S754_zero false =>
        if 0 <? exponent then 0 else infinity
    | S754_zero true =>
        if 0 <? exponent
        then (if isOddInteger exponent then neg_zero else 0)
        else (if isOddInteger exponent then neg_infinity else infinity)
    | S754_finite s _ _ =>
        if exponent =? infinity then
          (if 1 <? abs base then infinity
           else if abs base =? 1 then nan else 0)
        else if exponent =? neg_infinity then
          (if 1 <? abs base then 0
           else if abs base =? 1 then nan else infinity)
        else if s && negb (isInteger exponent) then nan
        else pow_approx base exponent
    end.

(** [Math.log]. *)
Definition Math_log (x : float) : float :=
  match Prim2SF x with
  | S754_nan => nan
  | S754_infinity false => infinity
  | S754_infinity true => nan
  | S754_zero _ => neg_infinity
  | S754_finite true _ _ => nan
  | S754_finite false _ _ => if x =? 1 then 0 else log_approx x
  end.

End Builtins.

(** [Math.abs]. *)
Definition Math_abs (x : float) : float := abs x.

(** ** Decimal to binary64, correctly rounded *)

(** [m * 10^e10] rounded to nearest, ties to even ([m >= 0]). *)
Definition SF_of_decimal (neg : bool) (m e10 : Z) : spec_float :=
  match m with
  | Z0 => S754_zero neg
  | Zpos p =>
      if (0 <=? e10)%Z then
        binary_normalize prec emax (cond_Zopp neg (Zpos p * 10 ^ e10)) 0 neg
      else
        let q := (10 ^ (- e10))%Z in
        let sh := Z.max 0 (prec + 2 + Z.log2 q - Z.log2 (Zpos p)) in
        let '(quo, rem) := Z.div_eucl (Z.shiftl (Zpos p) sh) q in
        binary_round_aux prec emax neg quo (- sh) (new_location q rem)
  | Zneg _ => S754_nan
  end.

Definition of_decimal (neg : bool) (m e10 : Z) : float :=
  SF2Prim (SF_of_decimal neg m e10).

(** ** [parseFloat] *)

Definition is_digit (c : ascii) : bool :=
  let n := nat_of_ascii c in (48 <=? n)%nat && (n <=? 57)%nat.

Definition digit_val (c : ascii) : Z := Z.of_nat (nat_of_ascii c) - 48.

(** StrWhiteSpaceChar, on the ASCII range. *)
Definition is_space (c : ascii) : bool :=
  let n := nat_of_ascii c in
  ((9 <=? n)%nat && (n <=? 13)%nat) || (n =? 32)%nat.

Fixpoint trim_start (s : string) : string :=
  match s with
  | String c s' => if is_space c then trim_start s' else s
  | EmptyString => s
  end.

(** Reads the longest run of decimal digits: its value continued from
    [acc], the number of digits read, and the rest of the string. *)
Fixpoint take_digits (s : string) (acc : Z) (cnt : Z) : Z * Z * string :=
  match s with
  | String c s' =>
      if is_digit c then take_digits s' (10 * acc + digit_val c) (cnt + 1)
      else (acc, cnt, s)
  | EmptyString => (acc, cnt, s)
  end.

Definition take_sign (s : string) : bool * string :=
  match s with
  | String "-"%char s' => (true, s')
  | String "+"%char s' => (false, s')
  | _ => (false, s)
  end.

(** ExponentPart (optional): [e] or [E], an optional sign, one digit or more. *)
Definition take_exponent (s : string) : Z :=
  match s with
  | String c s' =>
      if (Ascii.eqb c "e" || Ascii.eqb c "E")%char then
        let '(neg, s'') := take_sign s' in
        let '(v, cnt, _) := take_digits s'' 0 0 in
        if (cnt =? 0)%Z then 0%Z else cond_Zopp neg v
      else 0%Z
  | EmptyString => 0%Z
  end.

(** [parseFloat(string)]: leading white space is skipped, the longest
    prefix that is a StrDecimalLiteral is read, and NaN is the answer when
    there is none. *)
Definition parseFloat (s : string) : float :=
  let '(neg, s0) := take_sign (trim_start s) in
  if String.prefix "Infinity" s0 then (if neg then neg_infinity else infinity)
  else
    let '(ip, ni, s1) := take_digits s0 0 0 in
    let '(m, nf, s2) :=
      match s1 with
      | String "."%char s' => take_digits s' ip 0
      | _ => (ip, 0%Z, s1)
      end in
    if ((ni =? 0) && (nf =? 0))%Z then nan
    else of_decimal neg m (take_exponent s2 - nf).

(** ** [Number.prototype.toFixed] *)

Definition digits_of (n : Z) : string :=
  NilZero.string_of_uint (N.to_uint (Z.to_N n)).

Fixpoint zeros (k : nat) : string :=
  match k with O => EmptyString | S k' => String "0" (zeros k') end.

(** The decimal digits of [n] with a point before the last [fd] of them. *)
Definition fixed_digits (n : Z) (fd : nat) : string :=
  let m := digits_of n in
  match fd with
  | O => m
  | S _ =>
      let k := String.length m in
      let m := if (k <=? fd)%nat then (zeros (fd + 1 - k) ++ m)%string else m in
      let k := String.length m in
      (String.substring 0 (k - fd) m ++ "." ++ String.substring (k - fd) fd m)%string
  end.

Fixpoint strip_zeros_rev (l : list ascii) : list ascii :=
  match l with
  | "0"%char :: l' => strip_zeros_rev l'
  | _ => l
  end.

Definition strip_trailing_zeros (s : string) : string :=
  string_of_list_ascii
    (rev (strip_zeros_rev (rev (list_ascii_of_string s)))).

(** The shortest decimal [s * 10^(d-k)] that reads back as [x], searched
    for [k = 1, 2, ...]; [X] is the exact integer value of [x] and [d] the
    number of its decimal digits. *)
Fixpoint shortest_digits (fuel : nat) (x : float) (X d k : Z) : Z * Z :=
  match fuel with
  | O => (X, 0%Z)
  | S fuel' =>
      let p := (10 ^ (d - k))%Z in
      let lo := (X / p)%Z in
      let hi := (lo + 1)%Z in
      let ok c := PrimFloat.eqb (of_decimal false c (d - k)) x in
      let dlo := (X - lo * p)%Z in
      let dhi := (hi * p - X)%Z in
      let pick :=
        if ok lo && ok hi then
          (if (dlo <? dhi)%Z then lo
           else if (dhi <? dlo)%Z then hi
           else if Z.even lo then lo else hi)
        else if ok lo then lo else hi in
      if ok lo || ok hi then (pick, (d - k)%Z)
      else shortest_digits fuel' x X d (k + 1)%Z
  end.

(** [Number::toString] on the range [toFixed] delegates to it:
    finite values of magnitude at least [1e21], always in exponent form. *)
Definition toString_large (s : bool) (m : positive) (e : Z) : string :=
  let X := (Zpos m * 2 ^ e)%Z in
  let d := Z.of_nat (String.length (digits_of X)) in
  let '(sd, e10) := shortest_digits 18 (SF2Prim (S754_finite false m e)) X d 1 in
  let all := digits_of sd in
  let ds := strip_trailing_zeros all in
  let n1 := (Z.of_nat (String.length all) + e10 - 1)%Z in
  ((if s then "-" else "") ++
   String.substring 0 1 ds ++
   (if (String.length ds <=? 1)%nat then ""
    else "." ++ String.substring 1 (String.length ds - 1) ds) ++
   "e+" ++ digits_of n1)%string.

(** [x.toFixed(fd)]. *)
Definition toFixed (x : float) (fd : nat) : string :=
  match Prim2SF x with
  | S754_nan => "NaN"
  | S754_infinity s => if s then "-Infinity" else "Infinity"
  | S754_zero _ => fixed_digits 0 fd
  | S754_finite s m e =>
      if PrimFloat.leb 1e21 (abs x) then toString_large s m e
      else
        let scale := (10 ^ Z.of_nat fd)%Z in
        let n :=
          if (0 <=? e)%Z then (Zpos m * 2 ^ e * scale)%Z
          else ((2 * Zpos m * scale + 2 ^ (- e)) / 2 ^ (- e + 1))%Z in
        ((if s then "-" else "") ++ fixed_digits n fd)%string
  end.

(** ** A reference [MathLib]

    Used to evaluate the program on concrete inputs. Integral exponents are
    raised by repeated squaring; the other cases go through a logarithm and
    an exponential computed from their series. *)

Section Reference.
Local Open Scope float_scope.

Definition float_of_Z (z : Z) : float :=
  SF2Prim (binary_normalize prec emax z 0 false).

Definition pow_int (x : float) (z : Z) : float :=
  match z with
  | Z0 => 1
  | Zpos p => Pos.iter_op mul p x
  | Zneg p => 1 / Pos.iter_op mul p x
  end.

(** [sum_{i < k} z^(2i+1) / (2i+1)], by Horner's rule in [z^2]. *)
Fixpoint atanh_series (k : nat) (j : Z) (z2 : float) : float :=
  match k with
  | O => 0
  | S k' => 1 / float_of_Z j + z2 * atanh_series k' (j + 2) z2
  end.

Definition ln2 : float := 0.6931471805599453.

Definition ln_ref (x : float) : float :=
  let '(m, e) := Z.frexp x in
  let '(m, e) := if m <? 0.7071067811865476 then (2 * m, (e - 1)%Z) else (m, e) in
  let z := (m - 1) / (m + 1) in
  float_of_Z e * ln2 + 2 * (z * atanh_series 30 1 (z * z)).

(** [sum_{i < k} t^i / i!], by Horner's rule. *)
Fixpoint exp_series (k : nat) (j : Z) (t : float) : float :=
  match k with
  | O => 1
  | S k' => 1 + t / float_of_Z j * exp_series k' (j + 1) t
  end.

Definition exp_ref (t : float) : float :=
  Pos.iter (fun y => y * y) (exp_series 30 1 (t / 1024)) 10.

Definition pow_ref (x y : float) : float :=
  match integral_value y with
  | Some z => pow_int x z
  | None => exp_ref (y * ln_ref x)
  end.

Definition reference : MathLib :=
  {| pow_approx := pow_ref; log_approx := ln_ref |}.

End Reference.

End JS.

(* ===================================================================== *)
(** * The arithmetic the formulas are written in                          *)
(* ===================================================================== *)

(** The operators that occur in the source's expressions. The program runs
    them on binary64 ([float_arith]); [real_arith] reads the same expressions
    in exact arithmetic. *)
Class Arith (T : Type) : Type := {
  a_add : T -> T -> T;
  a_sub : T -> T -> T;
  a_mul : T -> T -> T;
  a_div : T -> T -> T;
  a_neg : T -> T;
  a_pow : T -> T -> T;
  a_log : T -> T;
  a_one : T;
  a_two : T
}.

Declare Scope arith_scope.
Delimit Scope arith_scope with A.
Notation "x + y" := (a_add x y) : arith_scope.
Notation "x - y" := (a_sub x y) : arith_scope.
Notation "x * y" := (a_mul x y) : arith_scope.
Notation "x / y" := (a_div x y) : arith_scope.
Notation "- x" := (a_neg x) : arith_scope.
Notation "x ** y" := (a_pow x y) (at level 30, right associativity) : arith_scope.
Notation "1" := a_one : arith_scope.
Notation "2" := a_two : arith_scope.

#[export] Instance float_arith {M : JS.MathLib} : Arith float := {|
  a_add := PrimFloat.add;
  a_sub := PrimFloat.sub;
  a_mul := PrimFloat.mul;
  a_div := PrimFloat.div;
  a_neg := PrimFloat.opp;
  a_pow := JS.exponentiate;
  a_log := JS.Math_log;
  a_one := 1%float;
  a_two := 2%float
|}.

Definition real_arith : Arith R := {|
  a_add := Rplus;
  a_sub := Rminus;
  a_mul := Rmult;
  a_div := Rdiv;
  a_neg := Ropp;
  a_pow := Rpower;
  a_log := ln;
  a_one := 1%R;
  a_two := 2%R
|}.

Section Formulas.
Context {T : Type} {A : Arith T}.
Local Open Scope arith_scope.

(** [const f = ...] in [calculateInterestRate]: the left-hand side of the
    TVM identity. *)
Definition tvm_f (pv fv n pmt r : T) : T :=
  pv * (1 + r) ** n + pmt * ((1 + r) ** n - 1) / r + fv.

(** [const df = ...] in [calculateInterestRate]. *)
Definition tvm_df (pv n pmt r : T) : T :=
  n * pv * (1 + r) ** (n - 1)
  + pmt * (n * (1 + r) ** (n - 1) * r - ((1 + r) ** n - 1)) / r ** 2.

(** The four closed forms of [solveFor]'s [switch]; [fv] is the negated
    future value, as [solveFor] binds it. *)
Definition presentValue_formula (fv pmt r n : T) : T :=
  (fv - pmt * ((1 + r) ** n - 1) / r) / (1 + r) ** n.

Definition futureValue_formula (pv pmt r n : T) : T :=
  - (pv * (1 + r) ** n + pmt * ((1 + r) ** n - 1) / r).

Definition numberOfPeriods_formula (pv fv pmt r : T) : T :=
  a_log ((fv + pmt / r) / (pv + pmt / r)) / a_log (1 + r).

Definition payment_formula (pv fv r n : T) : T :=
  (fv - pv * (1 + r) ** n) * r / ((1 + r) ** n - 1).

End Formulas.

(* ===================================================================== *)
(** * The component                                                       *)
(* ===================================================================== *)

Inductive PaymentFrequency : Type :=
  | monthly | yearly | daily | weekly | semi_monthly | bi_weekly | semi_annually.

Record CalculatorState : Type := {
  presentValue : string;
  futureValue : string;
  interestRate : string;
  numberOfPeriods : string;
  payment : string;
  paymentFrequency : PaymentFrequency
}.

(** [keyof CalculatorState]. *)
Module Key.
Inductive t : Type :=
  | presentValue | futureValue | interestRate | numberOfPeriods | payment
  | paymentFrequency.

Definition eqb (a b : t) : bool :=
  match a, b with
  | presentValue, presentValue | futureValue, futureValue
  | interestRate, interestRate | numberOfPeriods, numberOfPeriods
  | payment, payment | paymentFrequency, paymentFrequency => true
  | _, _ => false
  end.
End Key.

Definition frequencyMap (f : PaymentFrequency) : float :=
  match f with
  | monthly => 12
  | yearly => 1
  | daily => 365
  | weekly => 52
  | semi_monthly => 24
  | bi_weekly => 26
  | semi_annually => 2
  end%float.

Definition initialState : CalculatorState := {|
  presentValue := "";
  futureValue := "";
  interestRate := "";
  numberOfPeriods := "";
  payment := "";
  paymentFrequency := monthly
|}.

(** What a call ends in: a value, or a thrown [Error] with its message. *)
Inductive Completion (A : Type) : Type :=
  | Normal (a : A)
  | Throw (message : string).
Arguments Normal {A} a.
Arguments Throw {A} message.

(** The two pieces of React state of [App]. *)
Record AppState : Type := {
  state : CalculatorState;
  lastSolved : option Key.t
}.

(** [{ ...prevState, [field]: value }] for the text fields. *)
Definition set_field (st : CalculatorState) (field : Key.t) (value : string)
  : CalculatorState :=
  match field with
  | Key.presentValue =>
      {| presentValue := value; futureValue := st.(futureValue);
         interestRate := st.(interestRate); numberOfPeriods := st.(numberOfPeriods);
         payment := st.(payment); paymentFrequency := st.(paymentFrequency) |}
  | Key.futureValue =>
      {| presentValue := st.(presentValue); futureValue := value;
         interestRate := st.(interestRate); numberOfPeriods := st.(numberOfPeriods);
         payment := st.(payment); paymentFrequency := st.(paymentFrequency) |}
  | Key.interestRate =>
      {| presentValue := st.(presentValue); futureValue := st.(futureValue);
         interestRate := value; numberOfPeriods := st.(numberOfPeriods);
         payment := st.(payment); paymentFrequency := st.(paymentFrequency) |}
  | Key.numberOfPeriods =>
      {| presentValue := st.(presentValue); futureValue := st.(futureValue);
         interestRate := st.(interestRate); numberOfPeriods := value;
         payment := st.(payment); paymentFrequency := st.(paymentFrequency) |}
  | Key.payment =>
      {| presentValue := st.(presentValue); futureValue := st.(futureValue);
         interestRate := st.(interestRate); numberOfPeriods := st.(numberOfPeriods);
         payment := value; paymentFrequency := st.(paymentFrequency) |}
  | Key.paymentFrequency => st
  end.

Definition get_field (st : CalculatorState) (field : Key.t) : string :=
  match field with
  | Key.presentValue => st.(presentValue)
  | Key.futureValue => st.(futureValue)
  | Key.interestRate => st.(interestRate)
  | Key.numberOfPeriods => st.(numberOfPeriods)
  | Key.payment => st.(payment)
  | Key.paymentFrequency => ""
  end.

Definition did_not_converge : string :=
  "Interest rate calculation did not converge".

Section Solver.
Context {M : JS.MathLib}.
Local Open Scope float_scope.

Definition getEffectiveRate (st : CalculatorState) : float :=
  JS.parseFloat st.(interestRate) / 100 / frequencyMap st.(paymentFrequency).

Definition tolerance : float := 1e-6.
Definition maxIterations : nat := 100.

(** The body of the [for] loop of [calculateInterestRate], with
    [remaining = maxIterations - i] iterations still to run from [r]. *)
Fixpoint newton_loop (st : CalculatorState) (pv fv n pmt : float)
    (remaining : nat) (r : float) : Completion float :=
  match remaining with
  | O => Throw did_not_converge
  | S remaining' =>
      let f := tvm_f pv fv n pmt r in
      let df := tvm_df pv n pmt r in
      let newR := r - f / df in
      if JS.Math_abs (newR - r) <? tolerance
      then Normal (newR * frequencyMap st.(paymentFrequency) * 100)
      else newton_loop st pv fv n pmt remaining' newR
  end.

Definition calculateInterestRate (st : CalculatorState) (pv fv n pmt : float)
  : Completion float :=
  newton_loop st pv fv n pmt maxIterations 0.1.

(** The [switch] of [solveFor]: the value bound to [result], [None] on the
    [default: return] branch. *)
Definition solveFor_result (st : CalculatorState) (field : Key.t)
  : option (Completion float) :=
  let r := getEffectiveRate st in
  let n := JS.parseFloat st.(numberOfPeriods) in
  let pv := JS.parseFloat st.(presentValue) in
  let fv := - JS.parseFloat st.(futureValue) in
  let pmt := JS.parseFloat st.(payment) in
  match field with
  | Key.presentValue => Some (Normal (presentValue_formula fv pmt r n))
  | Key.futureValue => Some (Normal (futureValue_formula pv pmt r n))
  | Key.interestRate => Some (calculateInterestRate st pv (- fv) n pmt)
  | Key.numberOfPeriods => Some (Normal (numberOfPeriods_formula pv fv pmt r))
  | Key.payment => Some (Normal (payment_formula pv fv r n))
  | Key.paymentFrequency => None
  end.

(** The digits [solveFor] keeps when it stores [result]. *)
Definition display_digits (field : Key.t) : nat :=
  if Key.eqb field Key.interestRate then 3%nat else 2%nat.

Definition solveFor (app : AppState) (field : Key.t) : Completion AppState :=
  match solveFor_result app.(state) field with
  | None => Normal app
  | Some (Throw message) => Throw message
  | Some (Normal result) =>
      Normal {| state := set_field app.(state) field
                           (JS.toFixed result (display_digits field));
                lastSolved := Some field |}
  end.

(** ** The Newton iteration, as a sequence *)

Definition newton_step (pv fv n pmt r : float) : float :=
  r - tvm_f pv fv n pmt r / tvm_df pv n pmt r.

(** [iterate k] is the value of the loop variable [r] after [k] updates. *)
Fixpoint iterate (pv fv n pmt : float) (k : nat) : float :=
  match k with
  | O => 0.1
  | S k' => newton_step pv fv n pmt (iterate pv fv n pmt k')
  end.

(** The test of the [if] in iteration [k] (counting from 0). *)
Definition converged_at (pv fv n pmt : float) (k : nat) : bool :=
  abs (iterate pv fv n pmt (S k) - iterate pv fv n pmt k) <? tolerance.


(** The value [calculateInterestRate] returns for the iterate [r]. *)
Definition annualized (st : CalculatorState) (r : float) : float :=
  r * frequencyMap st.(paymentFrequency) * 100.

(** What an outcome of the loop, run for [remaining] iterations from the
    [k]-th iterate, says about the sequence. *)
Definition loop_outcome (st : CalculatorState) (pv fv n pmt : float)
    (remaining k : nat) (c : Completion float) : Prop :=
  match c with
  | Throw message =>
      message = did_not_converge /\
      forall j, (j < remaining)%nat -> converged_at pv fv n pmt (k + j) = false
  | Normal v =>
      exists j, (j < remaining)%nat /\
        (forall i, (i < j)%nat -> converged_at pv fv n pmt (k + i) = false) /\
        converged_at pv fv n pmt (k + j) = true /\
        v = annualized st (iterate pv fv n pmt (S (k + j)))
  end.

End Solver.

(* ===================================================================== *)
(** * The form: input handler, labels, highlight                          *)
(* ===================================================================== *)

(** The characters [/[^0-9.-]/g] spares: digits, the point, the minus sign. *)
Definition allowed_char (c : ascii) : bool :=
  JS.is_digit c || Ascii.eqb c "." || Ascii.eqb c "-".

(** [value.replace(/[^0-9.-]/g, '')]. *)
Fixpoint sanitize (value : string) : string :=
  match value with
  | EmptyString => EmptyString
  | String c rest =>
      if allowed_char c then String c (sanitize rest) else sanitize rest
  end.

(** [e.target] of a change event: one of the five text inputs with the text
    typed, or the frequency [<select>] with the option chosen (its options
    are the keys of [frequencyMap], so the value is a [PaymentFrequency]). *)
Inductive ChangeEvent : Type :=
  | TextChange (name : Key.t) (value : string)
  | FrequencyChange (value : PaymentFrequency).

Definition set_frequency (st : CalculatorState) (f : PaymentFrequency)
  : CalculatorState :=
  {| presentValue := st.(presentValue); futureValue := st.(futureValue);
     interestRate := st.(interestRate); numberOfPeriods := st.(numberOfPeriods);
     payment := st.(payment); paymentFrequency := f |}.

Definition handleInputChange (app : AppState) (e : ChangeEvent) : AppState :=
  match e with
  | FrequencyChange value =>
      {| state := set_frequency app.(state) value;
         lastSolved := app.(lastSolved) |}
  | TextChange name value =>
      let sanitizedValue := sanitize value in
      {| state := set_field app.(state) name sanitizedValue;
         lastSolved := app.(lastSolved) |}
  end.

(** The property names of [CalculatorState], in the order of
    [Object.entries(state)]. *)
Definition key_name (k : Key.t) : string :=
  match k with
  | Key.presentValue => "presentValue"
  | Key.futureValue => "futureValue"
  | Key.interestRate => "interestRate"
  | Key.numberOfPeriods => "numberOfPeriods"
  | Key.payment => "payment"
  | Key.paymentFrequency => "paymentFrequency"
  end.

Definition state_keys : list Key.t :=
  [Key.presentValue; Key.futureValue; Key.interestRate; Key.numberOfPeriods;
   Key.payment; Key.paymentFrequency].

(** The keys of [frequencyMap], in the order of [Object.keys(frequencyMap)]. *)
Definition frequency_name (f : PaymentFrequency) : string :=
  match f with
  | monthly => "monthly"
  | yearly => "yearly"
  | daily => "daily"
  | weekly => "weekly"
  | semi_monthly => "semi-monthly"
  | bi_weekly => "bi-weekly"
  | semi_annually => "semi-annually"
  end.

Definition frequencies : list PaymentFrequency :=
  [monthly; yearly; daily; weekly; semi_monthly; bi_weekly; semi_annually].

Definition is_upper (c : ascii) : bool :=
  let n := nat_of_ascii c in (65 <=? n)%nat && (n <=? 90)%nat.

Definition is_lower (c : ascii) : bool :=
  let n := nat_of_ascii c in (97 <=? n)%nat && (n <=? 122)%nat.

(** [toUpperCase] of one character, on the ASCII range. *)
Definition toUpperCase (c : ascii) : ascii :=
  if is_lower c then ascii_of_nat (nat_of_ascii c - 32) else c.

(** [s.replace(/([A-Z])/g, ' $1')]: a space before every capital letter. *)
Fixpoint space_capitals (s : string) : string :=
  match s with
  | EmptyString => EmptyString
  | String c rest =>
      if is_upper c then String " " (String c (space_capitals rest))
      else String c (space_capitals rest)
  end.

(** [key.charAt(0).toUpperCase() + key.slice(1).replace(/([A-Z])/g, ' $1')],
    the text of a field's label and of a frequency option. *)
Definition label (key : string) : string :=
  match key with
  | EmptyString => EmptyString
  | String c rest => String (toUpperCase c) (space_capitals rest)
  end.

(** The class added to an input: [lastSolved === key ? 'bg-yellow-100' : '']. *)
Definition highlight (app : AppState) (key : Key.t) : string :=
  match app.(lastSolved) with
  | Some k => if Key.eqb k key then "bg-yellow-100" else ""
  | None => ""
  end.

(** The string with its spaces deleted. *)
Fixpoint without_spaces (s : string) : string :=
  match s with
  | EmptyString => EmptyString
  | String c rest =>
      if Ascii.eqb c " " then without_spaces rest
      else String c (without_spaces rest)
  end.

(** Every character of the string passes [p]. *)
Fixpoint all_chars (p : ascii -> bool) (s : string) : bool :=
  match s with
  | EmptyString => true
  | String c rest => p c && all_chars p rest
  end.

(** The text fields a solve of [field] reads: all the others. *)
Definition reads (field k : Key.t) : bool :=
  negb (Key.eqb k field) && negb (Key.eqb k Key.paymentFrequency).

Definition closed_form (field : Key.t) : bool :=
  negb (Key.eqb field Key.interestRate)
  && negb (Key.eqb field Key.paymentFrequency).

(** Every text field holds only characters the input handler lets through. *)
Definition clean_state (st : CalculatorState) : bool :=
  all_chars allowed_char st.(presentValue)
  && all_chars allowed_char st.(futureValue)
  && all_chars allowed_char st.(interestRate)
  && all_chars allowed_char st.(numberOfPeriods)
  && all_chars allowed_char st.(payment).

(* ===================================================================== *)
(** * Inputs the theorems are evaluated on                                *)
(* ===================================================================== *)

(** Every text below is made of digits, [.] and [-] only: what
    [handleInputChange] lets through into the state. *)

Definition fresh (st : CalculatorState) : AppState :=
  {| state := st; lastSolved := None |}.

(** The text of the future-value field after a call, if it completed. *)
Definition futureValue_of_outcome (c : Completion AppState) : option string :=
  match c with
  | Normal app => Some app.(state).(futureValue)
  | Throw _ => None
  end.

(** -1000 today at 12% a year, compounded monthly for 12 months. *)
Definition savings_state : CalculatorState := {|
  presentValue := "-1000"; futureValue := ""; interestRate := "12";
  numberOfPeriods := "12"; payment := "0"; paymentFrequency := monthly |}.

(** The form after Solve on the future value of [savings_state]. *)
Definition solved_savings : AppState := {|
  state := set_field savings_state Key.futureValue "1126.83";
  lastSolved := Some Key.futureValue |}.

(** The same deposit with its future value known and the rate to find. *)
Definition rate_state : CalculatorState := {|
  presentValue := "-1000"; futureValue := "1126.83"; interestRate := "";
  numberOfPeriods := "12"; payment := "0"; paymentFrequency := monthly |}.

(** A loan at a nominal rate of zero. *)
Definition zero_rate_state : CalculatorState := {|
  presentValue := "-1000"; futureValue := "500"; interestRate := "0";
  numberOfPeriods := "12"; payment := "100"; paymentFrequency := monthly |}.

(** No periods at all. *)
Definition no_period_state : CalculatorState := {|
  presentValue := "-1000"; futureValue := "1500"; interestRate := "";
  numberOfPeriods := "0"; payment := "100"; paymentFrequency := monthly |}.





(** One period, a future value of [10^307] (a one and 307 zeros). *)
Definition huge_state : CalculatorState := {|
  presentValue := "1"; futureValue := String "1" (JS.zeros 307);
  interestRate := ""; numberOfPeriods := "1"; payment := "0";
  paymentFrequency := monthly |}.

(* ===================================================================== *)
(** * Facts about binary64 arithmetic                                     *)
(* ===================================================================== *)

Section FloatFacts.
Import JS.
Local Open Scope float_scope.

Lemma isNaN_eq (x : float) : isNaN x = true -> x = nan.
Proof.
  unfold isNaN. destruct (Prim2SF x) eqn:E; try discriminate.
  intros _. apply Prim2SF_inj. now rewrite E.
Qed.

Lemma isZero_zero_or_nan (x : float) : isZero x = true -> zero_or_nan x = true.
Proof. unfold zero_or_nan. now intros ->. Qed.

Lemma tolerance_SF : Prim2SF tolerance = S754_finite false 4722366482869645 (-72).
Proof. vm_compute. reflexivity. Qed.

(** *** Rounding never produces NaN *)

Lemma shr_1_nonneg (mrs : shr_record) :
  (0 <= shr_m mrs)%Z -> (0 <= shr_m (shr_1 mrs))%Z.
Proof.
  destruct mrs as [m r s]. simpl.
  destruct m as [|[p|p|]|[p|p|]]; simpl; lia.
Qed.

Lemma iter_pos_shr_1_nonneg (p : positive) (mrs : shr_record) :
  (0 <= shr_m mrs)%Z -> (0 <= shr_m (SpecFloat.iter_pos shr_1 p mrs))%Z.
Proof.
  revert mrs. induction p as [p IH|p IH|]; intros mrs H; simpl.
  - apply IH, IH, shr_1_nonneg, H.
  - apply IH, IH, H.
  - apply shr_1_nonneg, H.
Qed.

Lemma shr_fexp_nonneg (m e : Z) (l : location) :
  (0 <= m)%Z -> (0 <= shr_m (fst (shr_fexp prec emax m e l)))%Z.
Proof.
  intros H. unfold shr_fexp, shr.
  assert (H0 : (0 <= shr_m (shr_record_of_loc m l))%Z)
    by (destruct l as [|[ | | ]]; exact H).
  destruct (fexp prec emax (Zdigits2 m + e) - e)%Z; simpl; trivial.
  now apply iter_pos_shr_1_nonneg.
Qed.

Lemma round_nearest_even_nonneg (m : Z) (l : location) :
  (0 <= m)%Z -> (0 <= round_nearest_even m l)%Z.
Proof.
  intros H. destruct l as [|[ | | ]]; simpl; try lia.
  destruct (Z.even m); lia.
Qed.

Lemma binary_round_aux_not_nan (s : bool) (m e : Z) (l : location) :
  (0 <= m)%Z -> binary_round_aux prec emax s m e l <> S754_nan.
Proof.
  intros H. unfold binary_round_aux.
  pose proof (shr_fexp_nonneg m e l H) as H1.
  destruct (shr_fexp prec emax m e l) as [mrs' e'].
  pose proof (shr_fexp_nonneg _ e' loc_Exact
                (round_nearest_even_nonneg _ (loc_of_shr_record mrs') H1)) as H2.
  destruct (shr_fexp prec emax _ e' loc_Exact) as [mrs'' e''].
  simpl in H2. destruct (shr_m mrs''); try discriminate; try lia.
  destruct (e'' <=? emax - prec)%Z; discriminate.
Qed.

(** *** How the special values travel through the operators *)

Lemma mul_not_nan (x y : float) :
  isNaN x = false -> isFinite y = true -> isZero y = false ->
  isNaN (x * y) = false.
Proof.
  unfold isFinite, isNaN, isZero. rewrite mul_spec. unfold SF64mul.
  destruct (Prim2SF x) as [sx|sx| |sx mx ex], (Prim2SF y) as [sy|sy| |sy my ey];
    simpl; try discriminate; try reflexivity.
  intros _ _ _.
  pose proof (binary_round_aux_not_nan (xorb sx sy) (Z.pos (mx * my))
                (ex + ey) loc_Exact ltac:(lia)) as H.
  destruct (binary_round_aux _ _ _ _ _ _); congruence.
Qed.

Lemma sub_nonfinite_l (x y : float) :
  isFinite x = false -> isFinite (x - y) = false.
Proof.
  unfold isFinite. rewrite sub_spec. unfold SF64sub.
  destruct (Prim2SF x) as [sx|sx| |sx mx ex], (Prim2SF y) as [sy|sy| |sy my ey];
    simpl; try discriminate; try reflexivity; destruct sx, sy; reflexivity.
Qed.

Lemma sub_nonfinite_r (x y : float) :
  isFinite y = false -> isFinite (x - y) = false.
Proof.
  unfold isFinite. rewrite sub_spec. unfold SF64sub.
  destruct (Prim2SF x) as [sx|sx| |sx mx ex], (Prim2SF y) as [sy|sy| |sy my ey];
    simpl; try discriminate; try reflexivity; destruct sx, sy; reflexivity.
Qed.

(** A non-finite difference never passes the tolerance test: [Math.abs]
    of it is [Infinity] or NaN, and neither is below [1e-6]. *)
Lemma nonfinite_not_within_tolerance (d : float) :
  isFinite d = false -> (Math_abs d <? tolerance) = false.
Proof.
  unfold isFinite, Math_abs. rewrite ltb_spec, abs_spec, tolerance_SF.
  destruct (Prim2SF d) as [sd|sd| |sd md ed]; simpl; try discriminate; reflexivity.
Qed.

Lemma div_by_zero_or_nan (x y : float) :
  zero_or_nan y = true -> isFinite (x / y) = false.
Proof.
  unfold zero_or_nan, isZero, isNaN, isFinite. rewrite div_spec. unfold SF64div.
  destruct (Prim2SF x) as [sx|sx| |sx mx ex], (Prim2SF y) as [sy|sy| |sy my ey];
    simpl; try discriminate; reflexivity.
Qed.

Lemma div_zero_or_nan_nan (x y : float) :
  zero_or_nan x = true -> zero_or_nan y = true -> isNaN (x / y) = true.
Proof.
  unfold zero_or_nan, isZero, isNaN. rewrite div_spec. unfold SF64div.
  destruct (Prim2SF x) as [sx|sx| |sx mx ex], (Prim2SF y) as [sy|sy| |sy my ey];
    simpl; try discriminate; reflexivity.
Qed.

Lemma mul_zero_or_nan_l (x y : float) :
  zero_or_nan x = true -> zero_or_nan (x * y) = true.
Proof.
  unfold zero_or_nan, isZero, isNaN. rewrite mul_spec. unfold SF64mul.
  destruct (Prim2SF x) as [sx|sx| |sx mx ex], (Prim2SF y) as [sy|sy| |sy my ey];
    simpl; try discriminate; reflexivity.
Qed.

Lemma mul_zero_or_nan_r (x y : float) :
  zero_or_nan y = true -> zero_or_nan (x * y) = true.
Proof.
  unfold zero_or_nan, isZero, isNaN. rewrite mul_spec. unfold SF64mul.
  destruct (Prim2SF x) as [sx|sx| |sx mx ex], (Prim2SF y) as [sy|sy| |sy my ey];
    simpl; try discriminate; reflexivity.
Qed.

Lemma div_zero_or_nan_l (x y : float) :
  zero_or_nan x = true -> zero_or_nan (x / y) = true.
Proof.
  unfold zero_or_nan, isZero, isNaN. rewrite div_spec. unfold SF64div.
  destruct (Prim2SF x) as [sx|sx| |sx mx ex], (Prim2SF y) as [sy|sy| |sy my ey];
    simpl; try discriminate; reflexivity.
Qed.

Lemma sub_zero_or_nan_zero (x y : float) :
  zero_or_nan x = true -> isZero y = true -> zero_or_nan (x - y) = true.
Proof.
  unfold zero_or_nan, isZero, isNaN. rewrite sub_spec. unfold SF64sub.
  destruct (Prim2SF x) as [sx|sx| |sx mx ex], (Prim2SF y) as [sy|sy| |sy my ey];
    simpl; try discriminate; try reflexivity; destruct sx, sy; reflexivity.
Qed.

Lemma add_zero_or_nan (x y : float) :
  zero_or_nan x = true -> zero_or_nan y = true -> zero_or_nan (x + y) = true.
Proof.
  unfold zero_or_nan, isZero, isNaN. rewrite add_spec. unfold SF64add.
  destruct (Prim2SF x) as [sx|sx| |sx mx ex], (Prim2SF y) as [sy|sy| |sy my ey];
    simpl; try discriminate; try reflexivity; destruct sx, sy; reflexivity.
Qed.

Lemma add_nan_r (x y : float) : isNaN y = true -> isNaN (x + y) = true.
Proof.
  unfold isNaN. rewrite add_spec. unfold SF64add.
  destruct (Prim2SF x) as [sx|sx| |sx mx ex], (Prim2SF y) as [sy|sy| |sy my ey];
    simpl; try discriminate; reflexivity.
Qed.

Lemma opp_nan (x : float) : isNaN x = true -> isNaN (- x) = true.
Proof.
  unfold isNaN. rewrite opp_spec.
  destruct (Prim2SF x); simpl; try discriminate; reflexivity.
Qed.

Lemma one_plus_zero (r : float) : isZero r = true -> 1 + r = 1.
Proof.
  unfold isZero. intros H. apply Prim2SF_inj. rewrite add_spec.
  destruct (Prim2SF r) as [sr|sr| |sr mr er]; try discriminate.
  vm_compute. reflexivity.
Qed.

Lemma exponentiate_zero {M : MathLib} (b e : float) :
  isZero e = true -> exponentiate b e = 1.
Proof.
  unfold exponentiate, isZero, isNaN. destruct (Prim2SF e); try discriminate.
  reflexivity.
Qed.

End FloatFacts.

(* ===================================================================== *)
(** * The loop of [calculateInterestRate] and the Newton sequence         *)
(* ===================================================================== *)

Section LoopFacts.
Context {M : JS.MathLib}.
Variable st : CalculatorState.
Variables pv fv n pmt : float.
Local Open Scope float_scope.

Local Abbreviation loop := (newton_loop st pv fv n pmt).
Local Abbreviation r_ := (iterate pv fv n pmt).
Local Abbreviation conv := (converged_at pv fv n pmt).
Local Abbreviation annualized := (annualized st).
Local Abbreviation loop_outcome := (loop_outcome st pv fv n pmt).

(** One turn of the loop, started from the [k]-th iterate. *)
Lemma newton_loop_step (remaining k : nat) :
  loop (S remaining) (r_ k) =
  if conv k then Normal (annualized (r_ (S k))) else loop remaining (r_ (S k)).
Proof. reflexivity. Qed.

Lemma newton_loop_throw (remaining k : nat) :
  (forall j, (j < remaining)%nat -> conv (k + j) = false) ->
  loop remaining (r_ k) = Throw did_not_converge.
Proof.
  revert k. induction remaining as [|remaining IH]; intros k H.
  - reflexivity.
  - rewrite newton_loop_step.
    rewrite <- (Nat.add_0_r k) at 1. rewrite (H 0%nat) by lia.
    apply IH. intros j Hj. rewrite Nat.add_succ_comm. apply H. lia.
Qed.

Lemma newton_loop_normal (remaining k j : nat) :
  (j < remaining)%nat ->
  (forall i, (i < j)%nat -> conv (k + i) = false) ->
  conv (k + j) = true ->
  loop remaining (r_ k) = Normal (annualized (r_ (S (k + j)))).
Proof.
  revert k j. induction remaining as [|remaining IH]; intros k j Hj Hbefore Hat.
  - lia.
  - rewrite newton_loop_step. destruct j as [|j].
    + rewrite Nat.add_0_r in Hat. rewrite Hat, Nat.add_0_r. reflexivity.
    + rewrite <- (Nat.add_0_r k) at 1. rewrite (Hbefore 0%nat) by lia.
      rewrite <- Nat.add_succ_comm in Hat |- *.
      apply IH; [lia | | exact Hat].
      intros i Hi. rewrite Nat.add_succ_comm. apply Hbefore. lia.
Qed.

Lemma newton_loop_outcome (remaining k : nat) :
  loop_outcome remaining k (loop remaining (r_ k)).
Proof.
  revert k. induction remaining as [|remaining IH]; intros k.
  - simpl. split; [reflexivity | intros j Hj; lia].
  - rewrite newton_loop_step. destruct (conv k) eqn:Hk.
    + exists 0%nat. rewrite Nat.add_0_r.
      repeat split; [lia | intros i Hi; lia | exact Hk].
    + specialize (IH (S k)). destruct (loop remaining (r_ (S k))) as [v|message].
      * destruct IH as (j & Hj & Hbefore & Hat & Hv).
        exists (S j). rewrite <- Nat.add_succ_comm.
        repeat split; [lia | | exact Hat | exact Hv].
        intros [|i] Hi; [now rewrite Nat.add_0_r|].
        rewrite <- Nat.add_succ_comm. apply Hbefore. lia.
      * destruct IH as (Hm & Hnone). split; [exact Hm|].
        intros [|j] Hj; [now rewrite Nat.add_0_r|].
        rewrite <- Nat.add_succ_comm. apply Hnone. lia.
Qed.

(** Once the loop variable is not finite the test fails forever. *)
Lemma nonfinite_step (r : float) :
  JS.isFinite r = false -> JS.isFinite (newton_step pv fv n pmt r) = false.
Proof. intros H. unfold newton_step. now apply sub_nonfinite_l. Qed.

Lemma nonfinite_iterate (k j : nat) :
  JS.isFinite (r_ k) = false -> JS.isFinite (r_ (k + j)) = false.
Proof.
  intros H. induction j as [|j IH].
  - now rewrite Nat.add_0_r.
  - rewrite Nat.add_succ_r. apply nonfinite_step, IH.
Qed.

Lemma converged_finite (k : nat) :
  conv k = true ->
  JS.isFinite (r_ k) = true /\ JS.isFinite (r_ (S k)) = true.
Proof.
  intros H. split.
  - destruct (JS.isFinite (r_ k)) eqn:E; trivial.
    pose proof (nonfinite_not_within_tolerance _
                  (sub_nonfinite_r (r_ (S k)) _ E)) as H'.
    unfold converged_at in H.
    unfold JS.Math_abs in H'. congruence.
  - destruct (JS.isFinite (r_ (S k))) eqn:E; trivial.
    pose proof (nonfinite_not_within_tolerance _
                  (sub_nonfinite_l _ (r_ k) E)) as H'.
    unfold converged_at in H.
    unfold JS.Math_abs in H'. congruence.
Qed.

Lemma nonfinite_never_converges (k j : nat) :
  JS.isFinite (r_ k) = false -> conv (k + j) = false.
Proof.
  intros H. destruct (conv (k + j)) eqn:E; trivial.
  apply converged_finite in E. destruct E as [E _].
  rewrite (nonfinite_iterate k j H) in E. discriminate.
Qed.

(** A non-finite iterate reached before any convergence ends in the throw. *)
Lemma nonfinite_iterate_throws (k : nat) :
  (forall j, (j < k)%nat -> conv j = false) ->
  JS.isFinite (r_ k) = false ->
  calculateInterestRate st pv fv n pmt = Throw did_not_converge.
Proof.
  intros Hbefore Hk. unfold calculateInterestRate.
  change 0.1 with (r_ 0). apply newton_loop_throw. intros j _. simpl.
  destruct (Nat.lt_ge_cases j k) as [Hlt|Hge]; [now apply Hbefore|].
  replace j with (k + (j - k))%nat by lia.
  now apply nonfinite_never_converges.
Qed.

End LoopFacts.

(* ===================================================================== *)
(** * The rate conversion and the closed forms                            *)
(* ===================================================================== *)

Section ClosedForms.
Context {M : JS.MathLib}.
Local Open Scope float_scope.
Local Abbreviation pow := JS.exponentiate.
Local Abbreviation log := JS.Math_log.

(** C6. The effective periodic rate is the nominal annual percentage
    divided by 100 and then by the periods per year of the selected
    frequency; the table maps monthly, yearly, daily, weekly, semi-monthly,
    bi-weekly and semi-annually to 12, 1, 365, 52, 24, 26 and 2, and these
    seven are all the frequencies there are. *)
Theorem getEffectiveRate_spec (st : CalculatorState) :
  getEffectiveRate st
  = JS.parseFloat st.(interestRate) / 100 / frequencyMap st.(paymentFrequency)
  /\ map frequencyMap
       [monthly; yearly; daily; weekly; semi_monthly; bi_weekly; semi_annually]
     = [12; 1; 365; 52; 24; 26; 2]
  /\ forall f : PaymentFrequency,
       In f [monthly; yearly; daily; weekly; semi_monthly; bi_weekly; semi_annually].
Proof.
  split; [reflexivity|]. split; [reflexivity|].
  intros f. destruct f; simpl; tauto.
Qed.

(** C1. With [r] the effective rate, [n], [pv], [pmt] the parsed fields and
    [fv] the parsed future value negated, the four closed-form branches of
    [solveFor] compute exactly the formulas of the specification, evaluated
    in binary64 with JavaScript's operator precedence; the future-value
    branch negates its result again. This holds for every content of the
    fields, finite or not. *)
Theorem solveFor_closed_forms (st : CalculatorState) :
  let r := getEffectiveRate st in
  let n := JS.parseFloat st.(numberOfPeriods) in
  let pv := JS.parseFloat st.(presentValue) in
  let fv := - JS.parseFloat st.(futureValue) in
  let pmt := JS.parseFloat st.(payment) in
  solveFor_result st Key.presentValue
  = Some (Normal ((fv - pmt * (pow (1 + r) n - 1) / r) / pow (1 + r) n))
  /\ solveFor_result st Key.futureValue
     = Some (Normal (- (pv * pow (1 + r) n + pmt * (pow (1 + r) n - 1) / r)))
  /\ solveFor_result st Key.numberOfPeriods
     = Some (Normal (log ((fv + pmt / r) / (pv + pmt / r)) / log (1 + r)))
  /\ solveFor_result st Key.payment
     = Some (Normal ((fv - pv * pow (1 + r) n) * r / (pow (1 + r) n - 1))).
Proof.
  intros r n pv fv pmt.
  split; [reflexivity|]. split; [reflexivity|]. split; reflexivity.
Qed.

End ClosedForms.

(* ===================================================================== *)
(** * The interest-rate solver                                            *)
(* ===================================================================== *)

Section RateSolver.
Context {M : JS.MathLib}.
Variable st : CalculatorState.
Variables pv fv n pmt : float.
Local Open Scope float_scope.

Local Abbreviation r_ := (iterate pv fv n pmt).
Local Abbreviation conv := (converged_at pv fv n pmt).
Local Abbreviation rate := (calculateInterestRate st pv fv n pmt).

Lemma calculateInterestRate_outcome :
  loop_outcome st pv fv n pmt maxIterations 0 rate.
Proof.
  unfold calculateInterestRate. change 0.1 with (r_ 0).
  apply newton_loop_outcome.
Qed.

Lemma calculateInterestRate_throw :
  (forall k, (k < maxIterations)%nat -> conv k = false) ->
  rate = Throw did_not_converge.
Proof.
  intros Hnone. unfold calculateInterestRate. change 0.1 with (r_ 0).
  apply newton_loop_throw. exact Hnone.
Qed.

Lemma calculateInterestRate_normal (k : nat) :
  (k < maxIterations)%nat ->
  (forall j, (j < k)%nat -> conv j = false) ->
  conv k = true ->
  rate = Normal (annualized st (r_ (S k))).
Proof.
  intros Hk Hbefore Hat. unfold calculateInterestRate. change 0.1 with (r_ 0).
  change (S k) with (S (0 + k)). now apply newton_loop_normal.
Qed.

(** C4. The solver is the Newton-Raphson iteration on [f]: it starts from
    [0.1], each update is [r - f(r) / f'(r)], the test of iteration [k] is
    [|r_(k+1) - r_k| < 1e-6], and when iteration [k] (one of the first 100)
    is the first to pass the test the call returns
    [r_(k+1) * frequencyMap[frequency] * 100]. *)
Theorem calculateInterestRate_newton (k : nat) :
  (k < 100)%nat ->
  (forall j, (j < k)%nat -> conv j = false) ->
  conv k = true ->
  r_ 0 = 0.1
  /\ (forall j, r_ (S j)
                = r_ j - tvm_f pv fv n pmt (r_ j) / tvm_df pv n pmt (r_ j))
  /\ (forall j, conv j = (abs (r_ (S j) - r_ j) <? 1e-6))
  /\ rate = Normal (r_ (S k) * frequencyMap st.(paymentFrequency) * 100).
Proof.
  intros Hk Hbefore Hat.
  split; [reflexivity|]. split; [intros j; reflexivity|].
  split; [intros j; reflexivity|].
  now apply calculateInterestRate_normal.
Qed.

(** C5. The solve ends within 100 iterations, in one of two ways: it throws
    the non-convergence error exactly when none of the 100 iterations passes
    the tolerance test, and it returns [v] exactly when [v] is the
    annualized iterate of the first iteration that passes it; so no value is
    returned once the budget is spent. The only message thrown is the
    non-convergence one, and [solveFor] lets it through to its caller. *)
Theorem calculateInterestRate_bounded :
  (rate = Throw did_not_converge <->
     forall k, (k < 100)%nat -> conv k = false)
  /\ (forall v, rate = Normal v <->
        exists k, (k < 100)%nat /\
          (forall j, (j < k)%nat -> conv j = false) /\
          conv k = true /\
          v = r_ (S k) * frequencyMap st.(paymentFrequency) * 100)
  /\ (forall message, rate = Throw message -> message = did_not_converge)
  /\ (forall app message,
        solveFor_result app.(state) Key.interestRate = Some (Throw message) ->
        solveFor app Key.interestRate = Throw message).
Proof.
  pose proof calculateInterestRate_outcome as H.
  split; [|split; [|split]].
  - split.
    + intros E. rewrite E in H. destruct H as [_ H]. exact H.
    + intros Hnone. now apply calculateInterestRate_throw.
  - intros v. split.
    + intros E. rewrite E in H. exact H.
    + intros (k & Hk & Hbefore & Hat & ->).
      now apply calculateInterestRate_normal.
  - intros message E. rewrite E in H. destruct H as [H _]. exact H.
  - intros app message E. unfold solveFor. now rewrite E.
Qed.

Lemma frequencyMap_finite (f : PaymentFrequency) :
  JS.isFinite (frequencyMap f) = true /\ JS.isZero (frequencyMap f) = false.
Proof. destruct f; vm_compute; split; reflexivity. Qed.

Lemma annualized_not_nan (r : float) :
  JS.isFinite r = true -> JS.isNaN (annualized st r) = false.
Proof.
  intros Hr. unfold annualized.
  destruct (frequencyMap_finite st.(paymentFrequency)) as [Hf Hz].
  apply mul_not_nan; [|vm_compute; reflexivity|vm_compute; reflexivity].
  apply mul_not_nan; [|exact Hf|exact Hz].
  unfold JS.isFinite in Hr. unfold JS.isNaN.
  destruct (Prim2SF r); try discriminate; reflexivity.
Qed.

(** A derivative that is zero (or NaN) sends the next iterate out of the
    finite numbers. *)
Lemma singular_step (r : float) :
  JS.zero_or_nan (tvm_df pv n pmt r) = true ->
  JS.isFinite (newton_step pv fv n pmt r) = false.
Proof.
  intros H. unfold newton_step.
  apply sub_nonfinite_r, div_by_zero_or_nan, H.
Qed.

Lemma singular_iterate_throws (k : nat) :
  (forall j, (j < k)%nat -> conv j = false) ->
  JS.zero_or_nan (tvm_df pv n pmt (r_ k)) = true ->
  rate = Throw did_not_converge.
Proof.
  intros Hbefore Hdf.
  pose proof (singular_step (r_ k) Hdf) as Hnext.
  change (newton_step pv fv n pmt (r_ k)) with (r_ (S k)) in Hnext.
  apply (nonfinite_iterate_throws st pv fv n pmt (S k)); [|exact Hnext].
  intros j Hj. destruct (Nat.eq_dec j k) as [->|Hne].
  - destruct (conv k) eqn:E; trivial.
    apply converged_finite in E. destruct E as [_ E]. congruence.
  - apply Hbefore. lia.
Qed.

(** With no periods the derivative is zero or NaN at every [r]: each of its
    two terms carries the factor [n]. *)
Lemma no_period_derivative (r : float) :
  JS.isZero n = true -> JS.zero_or_nan (tvm_df pv n pmt r) = true.
Proof.
  intros Hn. unfold tvm_df. cbn [a_add a_sub a_mul a_div a_pow a_one a_two float_arith].
  rewrite (exponentiate_zero (1 + r) n Hn).
  apply add_zero_or_nan.
  - apply mul_zero_or_nan_l, mul_zero_or_nan_l, isZero_zero_or_nan, Hn.
  - apply div_zero_or_nan_l, mul_zero_or_nan_r, sub_zero_or_nan_zero.
    + apply mul_zero_or_nan_l, mul_zero_or_nan_l, isZero_zero_or_nan, Hn.
    + vm_compute. reflexivity.
Qed.

(** X1. With a number of periods of zero ([+0] or [-0]) the rate solve
    throws the non-convergence error, whatever the amounts are. *)
Lemma no_period_throws :
  JS.isZero n = true -> rate = Throw did_not_converge.
Proof.
  intros Hn. apply (singular_iterate_throws 0).
  - intros j Hj. lia.
  - now apply no_period_derivative.
Qed.

(** C3 (as the code behaves). When the derivative is exactly zero at an
    iterate the loop reaches, the division is carried out all the same: the
    next iterate is not finite, no later iteration passes the tolerance test,
    and the call ends after its 100 iterations with the non-convergence
    error. The source has no separate condition for a singular derivative. *)
Theorem zero_derivative_throws_non_convergence (k : nat) :
  (k < 100)%nat ->
  (forall j, (j < k)%nat -> conv j = false) ->
  JS.isZero (tvm_df pv n pmt (r_ k)) = true ->
  JS.isFinite (r_ (S k)) = false
  /\ (forall j, (k <= j)%nat -> conv j = false)
  /\ rate = Throw did_not_converge.
Proof.
  intros Hk Hbefore Hdf.
  pose proof (singular_step (r_ k) (isZero_zero_or_nan _ Hdf)) as Hnext.
  change (newton_step pv fv n pmt (r_ k)) with (r_ (S k)) in Hnext.
  split; [exact Hnext|]. split.
  - intros j Hj. destruct (conv j) eqn:E; trivial.
    apply converged_finite in E. destruct E as [_ E].
    replace (S j) with (S k + (j - k))%nat in E by lia.
    rewrite (nonfinite_iterate pv fv n pmt (S k) (j - k) Hnext) in E.
    discriminate.
  - apply singular_iterate_throws with (k := k); [exact Hbefore|].
    now apply isZero_zero_or_nan.
Qed.

(** C10 (as the code behaves). A non-finite iterate reached by the loop ends
    the call in the non-convergence error, and an iteration that passes the
    tolerance test has both of its iterates finite; hence the value returned
    is never NaN. It is the finite iterate multiplied by the periods per year
    and by 100, and that product can overflow to an infinity. *)
Theorem calculateInterestRate_never_NaN :
  (forall k, (forall j, (j < k)%nat -> conv j = false) ->
             JS.isFinite (r_ k) = false -> rate = Throw did_not_converge)
  /\ (forall v, rate = Normal v ->
        JS.isNaN v = false /\
        exists k, (k < 100)%nat /\
          JS.isFinite (r_ k) = true /\ JS.isFinite (r_ (S k)) = true /\
          v = r_ (S k) * frequencyMap st.(paymentFrequency) * 100).
Proof.
  split.
  - intros k Hbefore Hk. now apply (nonfinite_iterate_throws st pv fv n pmt k).
  - intros v E. pose proof calculateInterestRate_outcome as H.
    rewrite E in H. destruct H as (k & Hk & _ & Hat & Hv).
    apply converged_finite in Hat. destruct Hat as [Hfin Hfin'].
    split.
    + rewrite Hv. now apply annualized_not_nan.
    + exists k. split; [exact Hk|]. split; [exact Hfin|]. split; [exact Hfin'|exact Hv].
Qed.

End RateSolver.

(* ===================================================================== *)
(** * [solveFor]                                                          *)
(* ===================================================================== *)

Section SolveFor.
Context {M : JS.MathLib}.
Local Open Scope float_scope.
Local Abbreviation pow := JS.exponentiate.

Lemma toFixed_nan (digits : nat) : JS.toFixed nan digits = "NaN"%string.
Proof. reflexivity. Qed.

(** The payment annuity term at a zero rate is [0 / 0]. *)
Lemma payment_formula_zero_rate (pv fv r n : float) :
  JS.isZero r = true -> pow 1 n = 1 -> payment_formula pv fv r n = nan.
Proof.
  intros Hr Hp. unfold payment_formula.
  cbn [a_add a_sub a_mul a_div a_pow a_one float_arith].
  rewrite (one_plus_zero r Hr), Hp. apply isNaN_eq, div_zero_or_nan_nan.
  - apply mul_zero_or_nan_r, isZero_zero_or_nan, Hr.
  - vm_compute. reflexivity.
Qed.

Lemma futureValue_formula_zero_rate (pv pmt r n : float) :
  JS.isZero r = true -> pow 1 n = 1 -> futureValue_formula pv pmt r n = nan.
Proof.
  intros Hr Hp. unfold futureValue_formula.
  cbn [a_add a_sub a_mul a_div a_neg a_pow a_one float_arith].
  rewrite (one_plus_zero r Hr), Hp. apply isNaN_eq, opp_nan, add_nan_r.
  apply div_zero_or_nan_nan.
  - apply mul_zero_or_nan_r. vm_compute. reflexivity.
  - apply isZero_zero_or_nan, Hr.
Qed.

(** C2 (as the code behaves). At a periodic rate of zero the payment and
    future-value branches apply the general closed forms unchanged. Nothing
    is thrown, but whenever [1 ** n] is 1 both results are NaN, whatever the
    amounts are, and [solveFor] stores the text "NaN" in the solved field. *)
Theorem zero_rate_gives_NaN (app : AppState) :
  JS.isZero (getEffectiveRate app.(state)) = true ->
  pow 1 (JS.parseFloat app.(state).(numberOfPeriods)) = 1 ->
  solveFor_result app.(state) Key.payment = Some (Normal nan)
  /\ solveFor_result app.(state) Key.futureValue = Some (Normal nan)
  /\ solveFor app Key.payment
     = Normal {| state := set_field app.(state) Key.payment "NaN";
                 lastSolved := Some Key.payment |}
  /\ solveFor app Key.futureValue
     = Normal {| state := set_field app.(state) Key.futureValue "NaN";
                 lastSolved := Some Key.futureValue |}.
Proof.
  intros Hr Hp.
  assert (Hpay : solveFor_result app.(state) Key.payment = Some (Normal nan)).
  { unfold solveFor_result. now rewrite payment_formula_zero_rate. }
  assert (Hfv : solveFor_result app.(state) Key.futureValue = Some (Normal nan)).
  { unfold solveFor_result. now rewrite futureValue_formula_zero_rate. }
  split; [exact Hpay|]. split; [exact Hfv|].
  unfold solveFor. rewrite Hpay, Hfv. split; reflexivity.
Qed.

(** C7 (as the code behaves). [solveFor] validates nothing: the fields are
    parsed as they are and go straight into the formulas. For each of the
    four closed-form fields the call always completes, and what it stores in
    the solved field is the two-decimal text of the formula's value on the
    parsed fields, whatever they hold (empty, unparsable, infinite); for the
    interest rate it stores the three-decimal text of what
    [calculateInterestRate] returns or lets its error through; for the
    frequency key it does nothing. The only error it can end in is the
    non-convergence error of the interest-rate branch. *)
Theorem solveFor_never_rejects (app : AppState) :
  let st := app.(state) in
  let r := getEffectiveRate st in
  let n := JS.parseFloat st.(numberOfPeriods) in
  let pv := JS.parseFloat st.(presentValue) in
  let fv := - JS.parseFloat st.(futureValue) in
  let pmt := JS.parseFloat st.(payment) in
  let stored (field : Key.t) (text : string) :=
    Normal {| state := set_field st field text; lastSolved := Some field |} in
  solveFor app Key.presentValue
  = stored Key.presentValue (JS.toFixed (presentValue_formula fv pmt r n) 2)
  /\ solveFor app Key.futureValue
     = stored Key.futureValue (JS.toFixed (futureValue_formula pv pmt r n) 2)
  /\ solveFor app Key.numberOfPeriods
     = stored Key.numberOfPeriods
         (JS.toFixed (numberOfPeriods_formula pv fv pmt r) 2)
  /\ solveFor app Key.payment
     = stored Key.payment (JS.toFixed (payment_formula pv fv r n) 2)
  /\ solveFor app Key.interestRate
     = match calculateInterestRate st pv (- fv) n pmt with
       | Normal v => stored Key.interestRate (JS.toFixed v 3)
       | Throw message => Throw message
       end
  /\ solveFor app Key.paymentFrequency = Normal app
  /\ (forall field, Key.eqb field Key.interestRate = false ->
        exists app', solveFor app field = Normal app')
  /\ (forall field message, solveFor app field = Throw message ->
        field = Key.interestRate /\ message = did_not_converge).
Proof.
  intros st r n pv fv pmt stored.
  split; [reflexivity|]. split; [reflexivity|]. split; [reflexivity|].
  split; [reflexivity|]. split.
  { unfold solveFor, solveFor_result. fold st r n pv fv pmt.
    destruct (calculateInterestRate st pv (- fv) n pmt); reflexivity. }
  split; [reflexivity|]. split.
  - intros field Hfield. destruct field; try discriminate;
      eexists; unfold solveFor, solveFor_result; reflexivity.
  - intros field message. unfold solveFor.
    destruct field; unfold solveFor_result; try discriminate.
    destruct (calculateInterestRate _ _ _ _ _) as [v|m] eqn:E; try discriminate.
    intros [= <-]. split; [reflexivity|].
    pose proof (calculateInterestRate_outcome app.(state)
                  (JS.parseFloat app.(state).(presentValue))
                  (- - JS.parseFloat app.(state).(futureValue))
                  (JS.parseFloat app.(state).(numberOfPeriods))
                  (JS.parseFloat app.(state).(payment))) as H.
    rewrite E in H. destruct H as [H _]. exact H.
Qed.

(** C9 (as the code behaves). [solveFor] computes [result] at full
    precision and then rounds it itself before storing it: the solved field
    receives [result.toFixed(3)] for the interest rate and
    [result.toFixed(2)] for every other field, and [lastSolved] is set to the
    field. No unrounded value leaves [solveFor]. *)
Theorem solveFor_stores_rounded (app : AppState) (field : Key.t) (result : float) :
  solveFor_result app.(state) field = Some (Normal result) ->
  solveFor app field
  = Normal {| state := set_field app.(state) field
                         (JS.toFixed result
                            (match field with Key.interestRate => 3 | _ => 2 end));
              lastSolved := Some field |}.
Proof.
  intros E. unfold solveFor. rewrite E. destruct field; reflexivity.
Qed.

End SolveFor.

(* ===================================================================== *)
(** * The closed forms in exact arithmetic                                *)
(* ===================================================================== *)

Section ExactArithmetic.
Local Open Scope R_scope.

Lemma Rpower_pos (x y : R) : 0 < Rpower x y.
Proof. unfold Rpower. apply exp_pos. Qed.

Lemma Rpower_eq_1 (x y : R) : 0 < x -> Rpower x y = 1 -> y = 0 \/ x = 1.
Proof.
  intros Hx H. unfold Rpower in H. rewrite <- exp_0 in H.
  apply exp_inv in H. apply Rmult_integral in H. destruct H as [H|H].
  - now left.
  - right. rewrite <- ln_1 in H. apply ln_inv in H; [exact H|exact Hx|lra].
Qed.

Lemma ln_one_plus_nonzero (r : R) : r <> 0 -> 0 < 1 + r -> ln (1 + r) <> 0.
Proof.
  intros Hr H1 H. rewrite <- ln_1 in H. apply ln_inv in H; lra.
Qed.

(** X15. Read over the real numbers, with [r <> 0] and
    [1 + r > 0], the closed forms are rearrangements of the TVM identity
    [pv (1+r)^n + pmt ((1+r)^n - 1) / r + futureValue = 0]: a tuple that
    satisfies it is reproduced exactly by the present-value and future-value
    formulas, by the payment formula when [n <> 0], and by the
    number-of-periods formula when [pv + pmt / r <> 0]. *)
Theorem closed_forms_invert_identity (pv FV r n pmt : R) :
  r <> 0 -> 0 < 1 + r ->
  @tvm_f R real_arith pv FV n pmt r = 0 ->
  @presentValue_formula R real_arith (- FV) pmt r n = pv
  /\ @futureValue_formula R real_arith pv pmt r n = FV
  /\ (n <> 0 -> @payment_formula R real_arith pv (- FV) r n = pmt)
  /\ (pv + pmt / r <> 0 ->
      @numberOfPeriods_formula R real_arith pv (- FV) pmt r = n).
Proof.
  intros Hr H1 Hid.
  unfold tvm_f in Hid.
  unfold presentValue_formula, futureValue_formula, payment_formula,
    numberOfPeriods_formula.
  cbn [a_add a_sub a_mul a_div a_neg a_pow a_log a_one real_arith] in *.
  pose proof (Rpower_pos (1 + r) n) as HX.
  assert (HX1 : n <> 0 -> Rpower (1 + r) n <> 1).
  { intros Hn E. apply Rpower_eq_1 in E; [|exact H1]. destruct E; lra. }
  assert (Hln : ln (Rpower (1 + r) n) = n * ln (1 + r)).
  { unfold Rpower. apply ln_exp. }
  pose proof (ln_one_plus_nonzero r Hr H1) as Hl.
  assert (HFV : FV = - (pv * Rpower (1 + r) n
                        + pmt * (Rpower (1 + r) n - 1) / r)) by lra.
  revert HX HX1 Hln HFV. generalize (Rpower (1 + r) n). clear Hid.
  intros X HX HX1 Hln ->.
  split; [field; lra|]. split; [reflexivity|]. split.
  - intros Hn. specialize (HX1 Hn). field. lra.
  - intros Hden.
    assert (Hnum : pv * r + pmt <> 0).
    { intros E. apply Hden.
      replace (pv + pmt / r) with ((pv * r + pmt) / r) by (field; exact Hr).
      rewrite E. unfold Rdiv. ring. }
    replace ((- - (pv * X + pmt * (X - 1) / r) + pmt / r) / (pv + pmt / r))
      with X by (field; split; assumption).
    rewrite Hln. field. exact Hl.
Qed.

End ExactArithmetic.

(* ===================================================================== *)
(** * The theorems at concrete inputs                                     *)
(* ===================================================================== *)

Section Evaluations.
Local Open Scope float_scope.
Local Existing Instance JS.reference.

(** The rate scenario converges in its fifth iteration, to 12.000%. *)
Lemma calculateInterestRate_newton_witness :
  calculateInterestRate rate_state (-1000) 1126.83 12 0
  = Normal 12.000445460194165.
Proof.
  assert (Hbefore : forall j, (j < 4)%nat ->
                     converged_at (-1000) 1126.83 12 0 j = false).
  { intros j Hj. do 4 (destruct j as [|j]; [vm_compute; reflexivity|]). lia. }
  destruct (calculateInterestRate_newton rate_state (-1000) 1126.83 12 0 4
              ltac:(lia) Hbefore ltac:(vm_compute; reflexivity))
    as (_ & _ & _ & H).
  rewrite H. vm_compute. reflexivity.
Defined.

Lemma zero_derivative_witness :
  calculateInterestRate no_period_state (-1000) 1500 0 100
  = Throw did_not_converge.
Proof.
  apply (zero_derivative_throws_non_convergence
           no_period_state (-1000) 1500 0 100 0).
  - lia.
  - intros j Hj. lia.
  - vm_compute. reflexivity.
Defined.

Lemma zero_rate_witness :
  solveFor (fresh zero_rate_state) Key.payment
  = Normal {| state := set_field zero_rate_state Key.payment "NaN";
              lastSolved := Some Key.payment |}.
Proof.
  apply (zero_rate_gives_NaN (fresh zero_rate_state)).
  - vm_compute. reflexivity.
  - vm_compute. reflexivity.
Defined.

Lemma solveFor_stores_rounded_witness :
  solveFor (fresh savings_state) Key.futureValue
  = Normal {| state := set_field savings_state Key.futureValue "1126.83";
              lastSolved := Some Key.futureValue |}.
Proof.
  assert (E : solveFor_result savings_state Key.futureValue
              = Some (Normal 1126.8250301319697))
    by (vm_compute; reflexivity).
  rewrite (solveFor_stores_rounded (fresh savings_state) Key.futureValue
             1126.8250301319697 E).
  vm_compute. reflexivity.
Defined.

Lemma closed_forms_invert_identity_witness :
  (@presentValue_formula R real_arith (- 200) 0 1 1 = - 100)%R.
Proof.
  apply (closed_forms_invert_identity (-100) 200 1 1 0)%R.
  - lra.
  - lra.
  - unfold tvm_f. cbn [a_add a_sub a_mul a_div a_pow a_one real_arith].
    rewrite Rpower_1 by lra. lra.
Defined.

(** At a nominal rate of 0 the payment and future-value results are NaN,
    not [(pv + fv) / n] and [-pv - pmt * n]. *)
Lemma zero_rate_counterexample :
  getEffectiveRate zero_rate_state = 0
  /\ solveFor_result zero_rate_state Key.payment = Some (Normal nan)
  /\ solveFor_result zero_rate_state Key.futureValue = Some (Normal nan)
  /\ - (-1000) - 100 * 12 = -200.
Proof. vm_compute. repeat split. Qed.

(** With [n = 0] the solve runs its 100 iterations and throws the
    non-convergence error. *)
Lemma zero_derivative_counterexample :
  JS.isZero (tvm_df (-1000) 0 100 0.1) = true
  /\ solveFor (fresh no_period_state) Key.interestRate
     = Throw "Interest rate calculation did not converge".
Proof. vm_compute. split; reflexivity. Qed.

(** With every field empty, hence NaN, solving the future value throws
    nothing and stores "NaN". *)
Lemma invalid_inputs_counterexample :
  JS.isNaN (JS.parseFloat initialState.(presentValue)) = true
  /\ solveFor (fresh initialState) Key.futureValue
     = Normal {| state := set_field initialState Key.futureValue "NaN";
                 lastSolved := Some Key.futureValue |}.
Proof. vm_compute. split; reflexivity. Qed.


(** The full-precision future value is 1126.8250301319697; what
    [solveFor] leaves is the text "1126.83". *)
Lemma display_rounding_counterexample :
  solveFor_result savings_state Key.futureValue
  = Some (Normal 1126.8250301319697)
  /\ futureValue_of_outcome (solveFor (fresh savings_state) Key.futureValue)
     = Some "1126.83"%string
  /\ (JS.parseFloat "1126.83" =? 1126.8250301319697) = false.
Proof. vm_compute. repeat split. Qed.

(** One period, [pv = 1], [fv = 1e307]: the second iteration passes the
    test at [r = -1e307], and the annualized value overflows. *)
Lemma overflow_counterexample :
  JS.parseFloat huge_state.(futureValue) = 1e307
  /\ calculateInterestRate huge_state 1 1e307 1 0 = Normal neg_infinity
  /\ solveFor_result huge_state Key.interestRate = Some (Normal neg_infinity).
Proof. vm_compute. repeat split. Qed.

End Evaluations.

(* ===================================================================== *)
(** * NaN through the solver                                              *)
(* ===================================================================== *)

Section NaNFacts.
Import JS.
Local Open Scope float_scope.

Lemma add_nan_l (x y : float) : isNaN x = true -> isNaN (x + y) = true.
Proof.
  unfold isNaN. rewrite add_spec. unfold SF64add.
  destruct (Prim2SF x) as [sx|sx| |sx mx ex], (Prim2SF y) as [sy|sy| |sy my ey];
    simpl; try discriminate; reflexivity.
Qed.

Lemma sub_nan_l (x y : float) : isNaN x = true -> isNaN (x - y) = true.
Proof.
  unfold isNaN. rewrite sub_spec. unfold SF64sub.
  destruct (Prim2SF x) as [sx|sx| |sx mx ex], (Prim2SF y) as [sy|sy| |sy my ey];
    simpl; try discriminate; reflexivity.
Qed.

Lemma sub_nan_r (x y : float) : isNaN y = true -> isNaN (x - y) = true.
Proof.
  unfold isNaN. rewrite sub_spec. unfold SF64sub.
  destruct (Prim2SF x) as [sx|sx| |sx mx ex], (Prim2SF y) as [sy|sy| |sy my ey];
    simpl; try discriminate; reflexivity.
Qed.

Lemma mul_nan_l (x y : float) : isNaN x = true -> isNaN (x * y) = true.
Proof.
  unfold isNaN. rewrite mul_spec. unfold SF64mul.
  destruct (Prim2SF x) as [sx|sx| |sx mx ex], (Prim2SF y) as [sy|sy| |sy my ey];
    simpl; try discriminate; reflexivity.
Qed.

Lemma mul_nan_r (x y : float) : isNaN y = true -> isNaN (x * y) = true.
Proof.
  unfold isNaN. rewrite mul_spec. unfold SF64mul.
  destruct (Prim2SF x) as [sx|sx| |sx mx ex], (Prim2SF y) as [sy|sy| |sy my ey];
    simpl; try discriminate; reflexivity.
Qed.

Lemma div_nan_l (x y : float) : isNaN x = true -> isNaN (x / y) = true.
Proof.
  unfold isNaN. rewrite div_spec. unfold SF64div.
  destruct (Prim2SF x) as [sx|sx| |sx mx ex], (Prim2SF y) as [sy|sy| |sy my ey];
    simpl; try discriminate; reflexivity.
Qed.

Lemma div_nan_r (x y : float) : isNaN y = true -> isNaN (x / y) = true.
Proof.
  unfold isNaN. rewrite div_spec. unfold SF64div.
  destruct (Prim2SF x) as [sx|sx| |sx mx ex], (Prim2SF y) as [sy|sy| |sy my ey];
    simpl; try discriminate; reflexivity.
Qed.

Lemma isNaN_not_finite (x : float) : isNaN x = true -> isFinite x = false.
Proof.
  unfold isNaN, isFinite. destruct (Prim2SF x); try discriminate; reflexivity.
Qed.

Lemma opp_involutive (x : float) : - - x = x.
Proof.
  apply Prim2SF_inj. rewrite !opp_spec.
  destruct (Prim2SF x) as [s|s| |s m e]; simpl; try reflexivity;
    now rewrite Bool.negb_involutive.
Qed.

Lemma exponentiate_nan_exponent {M : MathLib} (b e : float) :
  isNaN e = true -> isNaN (exponentiate b e) = true.
Proof. intros H. unfold exponentiate. rewrite H. reflexivity. Qed.

Lemma Math_log_nan {M : MathLib} (x : float) :
  isNaN x = true -> isNaN (Math_log x) = true.
Proof.
  unfold isNaN at 1, Math_log. destruct (Prim2SF x); try discriminate.
  reflexivity.
Qed.

End NaNFacts.

Create HintDb nan discriminated.
#[local] Hint Resolve add_nan_l add_nan_r sub_nan_l sub_nan_r mul_nan_l
  mul_nan_r div_nan_l div_nan_r opp_nan exponentiate_nan_exponent
  Math_log_nan : nan.

Ltac unfold_float_formulas :=
  unfold presentValue_formula, futureValue_formula, numberOfPeriods_formula,
    payment_formula, tvm_f, tvm_df, getEffectiveRate;
  cbn [a_add a_sub a_mul a_div a_neg a_pow a_log a_one a_two float_arith].

Section EmptyInputs.
Context {M : JS.MathLib}.
Local Open Scope float_scope.

Lemma newton_loop_frequency (st st' : CalculatorState) (pv fv n pmt : float)
    (remaining : nat) (r : float) :
  st.(paymentFrequency) = st'.(paymentFrequency) ->
  newton_loop st pv fv n pmt remaining r
  = newton_loop st' pv fv n pmt remaining r.
Proof.
  intros H. revert r. induction remaining as [|remaining IH]; intros r.
  - reflexivity.
  - cbn [newton_loop]. rewrite H, IH. reflexivity.
Qed.

Lemma solveFor_result_ignores_solved_field
    (st : CalculatorState) (field : Key.t) (value : string) :
  solveFor_result (set_field st field value) field = solveFor_result st field.
Proof.
  destruct field;
    [reflexivity|reflexivity| |reflexivity|reflexivity|reflexivity].
  unfold solveFor_result, calculateInterestRate.
  cbn [set_field presentValue futureValue numberOfPeriods payment].
  apply f_equal, newton_loop_frequency. reflexivity.
Qed.

Lemma set_field_twice (st : CalculatorState) (field : Key.t) (v w : string) :
  set_field (set_field st field v) field w = set_field st field w.
Proof. destruct field; reflexivity. Qed.

(** X2. Pressing Solve twice changes nothing more: a solve reads every
    field but the one it writes, so solving the same field again from the
    state it produced gives that state again. *)
Theorem solveFor_idempotent (app app' : AppState) (field : Key.t) :
  solveFor app field = Normal app' -> solveFor app' field = Normal app'.
Proof.
  unfold solveFor.
  destruct (solveFor_result app.(state) field) as [[result|message]|] eqn:E;
    try discriminate.
  - intros [= <-]. cbn [state].
    rewrite solveFor_result_ignores_solved_field, E, set_field_twice.
    reflexivity.
  - intros [= <-]. rewrite E. reflexivity.
Qed.

(** X3. A solve writes one field: on completion the other four texts and the
    frequency are as before, the solved field is the only one highlighted,
    and solving the frequency key changes nothing at all. *)
Theorem solveFor_frame (app app' : AppState) (field : Key.t) :
  solveFor app field = Normal app' ->
  (forall k, Key.eqb k field = false ->
     get_field app'.(state) k = get_field app.(state) k)
  /\ app'.(state).(paymentFrequency) = app.(state).(paymentFrequency)
  /\ (forall k, highlight app' k
                = if Key.eqb field Key.paymentFrequency then highlight app k
                  else if Key.eqb field k then "bg-yellow-100"%string
                  else ""%string)
  /\ (field = Key.paymentFrequency -> app' = app).
Proof.
  unfold solveFor.
  destruct (solveFor_result app.(state) field) as [[result|message]|] eqn:E;
    try discriminate; intros [= <-].
  - split; [|split; [|split]].
    + intros k Hk. destruct field, k; try discriminate; reflexivity.
    + destruct field; reflexivity.
    + intros k. destruct field; try reflexivity. discriminate.
    + intros ->. discriminate.
  - split; [|split; [|split]]; try reflexivity.
    + intros k. destruct field; try discriminate. reflexivity.
Qed.

(** The closed forms yield NaN as soon as one argument is NaN. *)
Lemma presentValue_formula_nan (fv pmt r n : float) :
  JS.isNaN fv || JS.isNaN pmt || JS.isNaN r || JS.isNaN n = true ->
  presentValue_formula fv pmt r n = nan.
Proof.
  intros H. apply isNaN_eq. unfold_float_formulas.
  repeat (apply Bool.orb_true_iff in H; destruct H as [H|H]); auto 8 with nan.
Qed.

Lemma futureValue_formula_nan (pv pmt r n : float) :
  JS.isNaN pv || JS.isNaN pmt || JS.isNaN r || JS.isNaN n = true ->
  futureValue_formula pv pmt r n = nan.
Proof.
  intros H. apply isNaN_eq. unfold_float_formulas.
  repeat (apply Bool.orb_true_iff in H; destruct H as [H|H]); auto 8 with nan.
Qed.

Lemma numberOfPeriods_formula_nan (pv fv pmt r : float) :
  JS.isNaN pv || JS.isNaN fv || JS.isNaN pmt || JS.isNaN r = true ->
  numberOfPeriods_formula pv fv pmt r = nan.
Proof.
  intros H. apply isNaN_eq. unfold_float_formulas.
  repeat (apply Bool.orb_true_iff in H; destruct H as [H|H]); auto 8 with nan.
Qed.

Lemma payment_formula_nan (pv fv r n : float) :
  JS.isNaN pv || JS.isNaN fv || JS.isNaN r || JS.isNaN n = true ->
  payment_formula pv fv r n = nan.
Proof.
  intros H. apply isNaN_eq. unfold_float_formulas.
  repeat (apply Bool.orb_true_iff in H; destruct H as [H|H]); auto 8 with nan.
Qed.

Lemma getEffectiveRate_nan (st : CalculatorState) :
  JS.isNaN (JS.parseFloat st.(interestRate)) = true ->
  JS.isNaN (getEffectiveRate st) = true.
Proof. intros H. unfold getEffectiveRate. auto with nan. Qed.

(** X4. An empty or unparsable field spoils every closed form that reads
    it: when one of the four fields a closed-form solve reads parses to NaN,
    the solve completes and stores the text "NaN". *)
Theorem nan_input_stores_NaN (app : AppState) (field k : Key.t) :
  closed_form field = true ->
  reads field k = true ->
  JS.isNaN (JS.parseFloat (get_field app.(state) k)) = true ->
  solveFor app field
  = Normal {| state := set_field app.(state) field "NaN";
              lastSolved := Some field |}.
Proof.
  intros Hfield Hk Hnan.
  assert (E : solveFor_result app.(state) field = Some (Normal nan)).
  { pose proof (getEffectiveRate_nan app.(state)) as Hr.
    destruct field; try discriminate; destruct k; try discriminate;
      cbn [get_field] in Hnan; unfold solveFor_result; do 2 f_equal;
      [ apply presentValue_formula_nan | apply presentValue_formula_nan
      | apply presentValue_formula_nan | apply presentValue_formula_nan
      | apply futureValue_formula_nan | apply futureValue_formula_nan
      | apply futureValue_formula_nan | apply futureValue_formula_nan
      | apply numberOfPeriods_formula_nan | apply numberOfPeriods_formula_nan
      | apply numberOfPeriods_formula_nan | apply numberOfPeriods_formula_nan
      | apply payment_formula_nan | apply payment_formula_nan
      | apply payment_formula_nan | apply payment_formula_nan ];
      try rewrite (opp_nan _ Hnan); try rewrite (Hr Hnan); try rewrite Hnan;
      rewrite ?Bool.orb_true_r; reflexivity. }
  unfold solveFor. rewrite E. destruct field; try discriminate; reflexivity.
Qed.

(** A NaN amount or term makes the first Newton step NaN. *)
Lemma nan_argument_throws (st : CalculatorState) (pv fv n pmt : float) :
  JS.isNaN pv || JS.isNaN fv || JS.isNaN n || JS.isNaN pmt = true ->
  calculateInterestRate st pv fv n pmt = Throw did_not_converge.
Proof.
  intros H.
  assert (Hf : JS.isNaN (tvm_f pv fv n pmt 0.1) = true).
  { unfold_float_formulas.
    repeat (apply Bool.orb_true_iff in H; destruct H as [H|H]); auto 8 with nan. }
  assert (H1 : JS.isFinite (iterate pv fv n pmt 1) = false).
  { apply isNaN_not_finite. cbn [iterate]. unfold newton_step.
    auto with nan. }
  apply (nonfinite_iterate_throws st pv fv n pmt 1); [|exact H1].
  intros j Hj. assert (j = 0)%nat as -> by lia.
  destruct (converged_at pv fv n pmt 0) eqn:E; trivial.
  apply converged_finite in E. destruct E as [_ E]. congruence.
Qed.

(** X5. An empty or unparsable amount or term makes the rate solve fail:
    when the present value, future value, number of periods or payment
    parses to NaN, solving the interest rate throws the non-convergence
    error and stores nothing. *)
Theorem nan_input_rate_throws (app : AppState) (k : Key.t) :
  reads Key.interestRate k = true ->
  JS.isNaN (JS.parseFloat (get_field app.(state) k)) = true ->
  solveFor app Key.interestRate = Throw did_not_converge.
Proof.
  intros Hk Hnan. unfold solveFor, solveFor_result.
  rewrite nan_argument_throws; [reflexivity|].
  rewrite opp_involutive.
  destruct k; try discriminate; cbn [get_field] in Hnan; rewrite Hnan;
    rewrite ?Bool.orb_true_r; reflexivity.
Qed.

(** X6. The rate solve sees the future value as entered: [solveFor] negates
    it and passes the negation negated again, which is the same number, and
    the text of the interest-rate field plays no part in the result. *)
Theorem interestRate_branch_arguments (st : CalculatorState) (value : string) :
  solveFor_result st Key.interestRate
  = Some (calculateInterestRate st
            (JS.parseFloat st.(presentValue)) (JS.parseFloat st.(futureValue))
            (JS.parseFloat st.(numberOfPeriods)) (JS.parseFloat st.(payment)))
  /\ solveFor_result (set_field st Key.interestRate value) Key.interestRate
     = solveFor_result st Key.interestRate.
Proof.
  split.
  - unfold solveFor_result. now rewrite opp_involutive.
  - apply solveFor_result_ignores_solved_field.
Qed.

End EmptyInputs.

(* ===================================================================== *)
(** * The form                                                            *)
(* ===================================================================== *)

Section Form.

Lemma sanitize_allowed (value : string) :
  all_chars allowed_char (sanitize value) = true.
Proof.
  induction value as [|c rest IH]; [reflexivity|]. cbn [sanitize].
  destruct (allowed_char c) eqn:E; [|exact IH].
  cbn [all_chars]. now rewrite E.
Qed.

Lemma sanitize_fixed (value : string) :
  all_chars allowed_char value = true -> sanitize value = value.
Proof.
  induction value as [|c rest IH]; [reflexivity|]. cbn [all_chars sanitize].
  intros H. apply Bool.andb_true_iff in H. destruct H as [Hc Hrest].
  now rewrite Hc, IH.
Qed.

Lemma sanitize_length (value : string) :
  (String.length (sanitize value) <= String.length value)%nat.
Proof.
  induction value as [|c rest IH]; [apply le_n|]. cbn [sanitize].
  destruct (allowed_char c); cbn [String.length]; lia.
Qed.

(** X7. The input filter keeps exactly the digits, points and minus signs
    of what was typed: its result holds no other character, a text is left
    as it is if and only if it holds no other character, filtering twice is
    filtering once, and it never lengthens the text. *)
Theorem sanitize_spec (value : string) :
  all_chars allowed_char (sanitize value) = true
  /\ (sanitize value = value <-> all_chars allowed_char value = true)
  /\ sanitize (sanitize value) = sanitize value
  /\ (String.length (sanitize value) <= String.length value)%nat.
Proof.
  split; [apply sanitize_allowed|]. split; [|split].
  - split; [|apply sanitize_fixed].
    intros E. rewrite <- E. apply sanitize_allowed.
  - apply sanitize_fixed, sanitize_allowed.
  - apply sanitize_length.
Qed.

(** X8. A change event touches one thing. Typing in a text input replaces
    that field by the filtered text and leaves the other texts, the
    frequency and the highlight alone; choosing a frequency leaves every
    text alone. A state whose texts are all clean stays so. *)
Theorem handleInputChange_frame (app : AppState) (e : ChangeEvent) :
  (handleInputChange app e).(lastSolved) = app.(lastSolved)
  /\ (clean_state app.(state) = true ->
      clean_state (handleInputChange app e).(state) = true)
  /\ match e with
     | TextChange name value =>
         (handleInputChange app e).(state).(paymentFrequency)
         = app.(state).(paymentFrequency)
         /\ (Key.eqb name Key.paymentFrequency = false ->
             get_field (handleInputChange app e).(state) name = sanitize value)
         /\ forall k, Key.eqb k name = false ->
              get_field (handleInputChange app e).(state) k
              = get_field app.(state) k
     | FrequencyChange value =>
         (handleInputChange app e).(state).(paymentFrequency) = value
         /\ forall k, get_field (handleInputChange app e).(state) k
                      = get_field app.(state) k
     end.
Proof.
  split; [destruct e; reflexivity|]. split.
  - destruct e as [name value|value]; [|intros H; exact H].
    unfold clean_state. cbn [handleInputChange state]. intros H.
    repeat (apply Bool.andb_true_iff in H; destruct H as [H ?]).
    pose proof (sanitize_allowed value) as Hs.
    destruct name; cbn [set_field presentValue futureValue interestRate
                          numberOfPeriods payment];
      repeat (apply Bool.andb_true_iff; split); assumption.
  - destruct e as [name value|value]; cbn [handleInputChange state].
    + split; [destruct name; reflexivity|]. split.
      * intros Hname. destruct name; try discriminate; reflexivity.
      * intros k Hk. destruct name, k; try discriminate; reflexivity.
    + split; [reflexivity|]. intros k. destruct k; reflexivity.
Qed.

Lemma without_spaces_space_capitals (s : string) :
  without_spaces (space_capitals s) = without_spaces s.
Proof.
  induction s as [|c rest IH]; [reflexivity|]. cbn [space_capitals].
  destruct (is_upper c) eqn:E.
  - cbn [without_spaces]. rewrite Ascii.eqb_refl, IH. reflexivity.
  - cbn [without_spaces]. now rewrite IH.
Qed.

Lemma space_capitals_length (s : string) :
  (String.length s <= String.length (space_capitals s))%nat.
Proof.
  induction s as [|c rest IH]; [apply le_n|]. cbn [space_capitals].
  destruct (is_upper c); cbn [String.length]; lia.
Qed.

(** X9. A label is its key with the first letter capitalized and a space
    put before every later capital, nothing else: deleting the spaces of the
    label's tail gives the key's tail without its spaces. For the six state
    keys and the seven frequency names this gives the texts the form shows. *)
Theorem label_spec :
  (forall c rest,
     label (String c rest) = String (toUpperCase c) (space_capitals rest)
     /\ without_spaces (space_capitals rest) = without_spaces rest
     /\ (String.length rest <= String.length (space_capitals rest))%nat)
  /\ map (fun k => label (key_name k)) state_keys
     = ["Present Value"; "Future Value"; "Interest Rate"; "Number Of Periods";
        "Payment"; "Payment Frequency"]%string
  /\ map (fun f => label (frequency_name f)) frequencies
     = ["Monthly"; "Yearly"; "Daily"; "Weekly"; "Semi-monthly"; "Bi-weekly";
        "Semi-annually"]%string.
Proof.
  split; [|split; reflexivity].
  intros c rest. split; [reflexivity|]. split.
  - apply without_spaces_space_capitals.
  - apply space_capitals_length.
Qed.

End Form.

(* ===================================================================== *)
(** * More on the formulas in exact arithmetic                            *)
(* ===================================================================== *)

Section ExactSolutions.
Local Open Scope R_scope.

Lemma derivable_pt_lim_eq (f : R -> R) (x l l' : R) :
  derivable_pt_lim f x l -> l = l' -> derivable_pt_lim f x l'.
Proof. intros H <-. exact H. Qed.

(** The growth factor [(1 + x)^n] and its derivative. *)
Lemma growth_derivative (n r : R) :
  0 < 1 + r ->
  derivable_pt_lim (fun x => Rpower (1 + x) n) r (n * Rpower (1 + r) (n - 1)).
Proof.
  intros H1.
  apply derivable_pt_lim_eq
    with (l := n * Rpower (1 + r) (n - 1) * (0 + 1)); [|ring].
  apply (derivable_pt_lim_comp (fct_cte 1 + id)%F (fun y => Rpower y n)).
  - apply derivable_pt_lim_plus;
      [apply derivable_pt_lim_const | apply derivable_pt_lim_id].
  - apply derivable_pt_lim_power. exact H1.
Qed.

Lemma Rpower_2 (r : R) : 0 < r -> Rpower r 2 = r * r.
Proof.
  intros Hr. replace 2 with (1 + 1) by ring.
  rewrite Rpower_plus, Rpower_1 by exact Hr. reflexivity.
Qed.

(** X10. [df] is the derivative of [f]: read over the reals, at every rate
    [r > 0], the expression the loop divides by is the derivative with
    respect to the rate of the expression it divides, so the update is
    Newton's. *)
Theorem tvm_df_is_derivative (pv fv n pmt r : R) :
  0 < r ->
  derivable_pt_lim (fun x => @tvm_f R real_arith pv fv n pmt x) r
    (@tvm_df R real_arith pv n pmt r).
Proof.
  intros Hr.
  assert (H1 : 0 < 1 + r) by lra.
  pose proof (growth_derivative n r H1) as Hg.
  set (g := fun x : R => Rpower (1 + x) n) in Hg.
  set (g' := n * Rpower (1 + r) (n - 1)) in Hg.
  assert (Hid : id r <> 0) by (unfold id; lra).
  pose proof
    (derivable_pt_lim_plus _ _ r _ _
       (derivable_pt_lim_plus _ _ r _ _
          (derivable_pt_lim_mult (fct_cte pv) g r 0 g'
             (derivable_pt_lim_const pv r) Hg)
          (derivable_pt_lim_div _ id r _ 1
             (derivable_pt_lim_mult (fct_cte pmt) (g - fct_cte 1)%F r 0 (g' - 0)
                (derivable_pt_lim_const pmt r)
                (derivable_pt_lim_minus g (fct_cte 1) r g' 0 Hg
                   (derivable_pt_lim_const 1 r)))
             (derivable_pt_lim_id r) Hid))
       (derivable_pt_lim_const fv r)) as H.
  eapply derivable_pt_lim_eq; [exact H|].
  unfold tvm_df. cbn [a_add a_sub a_mul a_div a_pow a_one a_two real_arith].
  rewrite (Rpower_2 r Hr).
  unfold g', g, fct_cte, id, minus_fct, mult_fct, Rsqr. field. lra.
Qed.

(** X11. What a closed form returns solves the identity: read over the
    reals with [r <> 0] and [1 + r > 0], putting the value of the
    future-value or present-value formula in its place makes [f] zero; so
    does the payment formula when [n <> 0], and the number-of-periods
    formula when the ratio it takes the logarithm of is positive. *)
Theorem closed_forms_solve_identity (pv FV r n pmt : R) :
  r <> 0 -> 0 < 1 + r ->
  @tvm_f R real_arith pv (@futureValue_formula R real_arith pv pmt r n) n pmt r = 0
  /\ @tvm_f R real_arith (@presentValue_formula R real_arith (- FV) pmt r n)
       FV n pmt r = 0
  /\ (n <> 0 ->
      @tvm_f R real_arith pv FV n
        (@payment_formula R real_arith pv (- FV) r n) r = 0)
  /\ (pv + pmt / r <> 0 -> 0 < (- FV + pmt / r) / (pv + pmt / r) ->
      @tvm_f R real_arith pv FV
        (@numberOfPeriods_formula R real_arith pv (- FV) pmt r) pmt r = 0).
Proof.
  intros Hr H1.
  unfold tvm_f, presentValue_formula, futureValue_formula, payment_formula,
    numberOfPeriods_formula.
  cbn [a_add a_sub a_mul a_div a_neg a_pow a_log a_one real_arith].
  pose proof (Rpower_pos (1 + r) n) as HX.
  pose proof (ln_one_plus_nonzero r Hr H1) as Hl.
  split; [ring|]. split; [field; lra|]. split.
  - intros Hn.
    assert (HX1 : Rpower (1 + r) n <> 1).
    { intros E. apply Rpower_eq_1 in E; [|exact H1]. destruct E; lra. }
    field. lra.
  - intros Hden Hq.
    set (q := (- FV + pmt / r) / (pv + pmt / r)) in *.
    assert (HP : Rpower (1 + r) (ln q / ln (1 + r)) = q).
    { unfold Rpower.
      replace (ln q / ln (1 + r) * ln (1 + r)) with (ln q) by (field; exact Hl).
      apply exp_ln, Hq. }
    rewrite HP.
    assert (Hnum : pv * r + pmt <> 0).
    { intros E. apply Hden.
      replace (pv + pmt / r) with ((pv * r + pmt) / r) by (field; exact Hr).
      rewrite E. unfold Rdiv. ring. }
    unfold q. field. split; assumption.
Qed.

End ExactSolutions.

(* ===================================================================== *)
(** * Frequency, zero rate and scale                                      *)
(* ===================================================================== *)

Section FrequencyAndZeroRate.
Context {M : JS.MathLib}.
Local Open Scope float_scope.

(** X12. The payment frequency only scales the answer of the rate solve:
    the iteration itself does not look at it, so with another frequency the
    solve throws in the same cases and otherwise returns the same periodic
    rate multiplied by the other number of periods per year. *)
Theorem frequency_only_scales (st st' : CalculatorState) (pv fv n pmt : float) :
  match calculateInterestRate st pv fv n pmt with
  | Throw message => calculateInterestRate st' pv fv n pmt = Throw message
  | Normal v =>
      exists r, v = r * frequencyMap st.(paymentFrequency) * 100
        /\ calculateInterestRate st' pv fv n pmt
           = Normal (r * frequencyMap st'.(paymentFrequency) * 100)
  end.
Proof.
  pose proof (calculateInterestRate_outcome st pv fv n pmt) as H.
  destruct (calculateInterestRate st pv fv n pmt) as [v|message].
  - destruct H as (k & Hk & Hbefore & Hat & Hv).
    exists (iterate pv fv n pmt (S k)). split; [exact Hv|].
    now apply calculateInterestRate_normal.
  - destruct H as [-> Hnone]. now apply calculateInterestRate_throw.
Qed.

Lemma add_nonfinite_r (x y : float) :
  JS.isFinite y = false -> JS.isFinite (x + y) = false.
Proof.
  unfold JS.isFinite. rewrite add_spec. unfold SF64add.
  destruct (Prim2SF x) as [sx|sx| |sx mx ex], (Prim2SF y) as [sy|sy| |sy my ey];
    simpl; try discriminate; try reflexivity; destruct sx, sy; reflexivity.
Qed.

Lemma div_nonfinite_nonfinite (x y : float) :
  JS.isFinite x = false -> JS.isFinite y = false -> JS.isNaN (x / y) = true.
Proof.
  unfold JS.isFinite, JS.isNaN. rewrite div_spec. unfold SF64div.
  destruct (Prim2SF x) as [sx|sx| |sx mx ex], (Prim2SF y) as [sy|sy| |sy my ey];
    simpl; try discriminate; reflexivity.
Qed.

(** X13. At a periodic rate of zero the number of periods cannot be
    solved: [pmt / r] is an infinity or NaN, the ratio under the logarithm
    is NaN, and the solve stores "NaN", whatever the amounts are. *)
Theorem zero_rate_periods_NaN (app : AppState) :
  JS.isZero (getEffectiveRate app.(state)) = true ->
  solveFor app Key.numberOfPeriods
  = Normal {| state := set_field app.(state) Key.numberOfPeriods "NaN";
              lastSolved := Some Key.numberOfPeriods |}.
Proof.
  intros Hr.
  assert (E : solveFor_result app.(state) Key.numberOfPeriods
              = Some (Normal nan)).
  { unfold solveFor_result. do 2 f_equal. apply isNaN_eq.
    unfold numberOfPeriods_formula.
    cbn [a_add a_sub a_mul a_div a_log a_one float_arith].
    apply div_nan_l, Math_log_nan, div_nonfinite_nonfinite;
      apply add_nonfinite_r, div_by_zero_or_nan, isZero_zero_or_nan, Hr. }
  unfold solveFor. rewrite E. reflexivity.
Qed.

End FrequencyAndZeroRate.

Section Scale.
Local Open Scope R_scope.

(** X14. The unit of the amounts does not matter (in exact arithmetic):
    multiplying the present value, future value and payment by the same
    [c <> 0] multiplies [f] and [df] by [c], so the Newton update of the
    rate is unchanged, and so is the number of periods; the amounts the
    other closed forms return are multiplied by [c]. *)
Theorem amounts_scale (c pv fv pmt r n : R) :
  c <> 0 ->
  @tvm_f R real_arith (c * pv) (c * fv) n (c * pmt) r
  = c * @tvm_f R real_arith pv fv n pmt r
  /\ @tvm_df R real_arith (c * pv) n (c * pmt) r
     = c * @tvm_df R real_arith pv n pmt r
  /\ r - @tvm_f R real_arith (c * pv) (c * fv) n (c * pmt) r
          / @tvm_df R real_arith (c * pv) n (c * pmt) r
     = r - @tvm_f R real_arith pv fv n pmt r / @tvm_df R real_arith pv n pmt r
  /\ @numberOfPeriods_formula R real_arith (c * pv) (c * fv) (c * pmt) r
     = @numberOfPeriods_formula R real_arith pv fv pmt r
  /\ @presentValue_formula R real_arith (c * fv) (c * pmt) r n
     = c * @presentValue_formula R real_arith fv pmt r n
  /\ @futureValue_formula R real_arith (c * pv) (c * pmt) r n
     = c * @futureValue_formula R real_arith pv pmt r n
  /\ @payment_formula R real_arith (c * pv) (c * fv) r n
     = c * @payment_formula R real_arith pv fv r n.
Proof.
  intros Hc.
  assert (Hf : @tvm_f R real_arith (c * pv) (c * fv) n (c * pmt) r
               = c * @tvm_f R real_arith pv fv n pmt r).
  { unfold tvm_f. cbn [a_add a_sub a_mul a_div a_pow a_one real_arith].
    unfold Rdiv. ring. }
  assert (Hdf : @tvm_df R real_arith (c * pv) n (c * pmt) r
                = c * @tvm_df R real_arith pv n pmt r).
  { unfold tvm_df. cbn [a_add a_sub a_mul a_div a_pow a_one a_two real_arith].
    unfold Rdiv. ring. }
  assert (Hquot : forall a b, (c * a) / (c * b) = a / b).
  { intros a b. unfold Rdiv. rewrite Rinv_mult.
    replace (c * a * (/ c * / b)) with (c * / c * (a * / b)) by ring.
    rewrite Rinv_r by exact Hc. ring. }
  split; [exact Hf|]. split; [exact Hdf|]. split; [|split; [|split; [|split]]].
  - rewrite Hf, Hdf, Hquot. reflexivity.
  - unfold numberOfPeriods_formula.
    cbn [a_add a_sub a_mul a_div a_log a_one real_arith].
    replace (c * fv + c * pmt / r) with (c * (fv + pmt / r))
      by (unfold Rdiv; ring).
    replace (c * pv + c * pmt / r) with (c * (pv + pmt / r))
      by (unfold Rdiv; ring).
    rewrite Hquot. reflexivity.
  - unfold presentValue_formula.
    cbn [a_add a_sub a_mul a_div a_pow a_one real_arith]. unfold Rdiv. ring.
  - unfold futureValue_formula.
    cbn [a_add a_sub a_mul a_div a_neg a_pow a_one real_arith].
    unfold Rdiv. ring.
  - unfold payment_formula.
    cbn [a_add a_sub a_mul a_div a_pow a_one real_arith]. unfold Rdiv. ring.
Qed.

End Scale.

(* ===================================================================== *)
(** * A sum that is zero: exact cancellation in binary64                  *)
(* ===================================================================== *)

Section ExactCancellation.
Local Open Scope Z_scope.















End ExactCancellation.

Section FutureValueRoundTrip.
Context {M : JS.MathLib}.
Local Open Scope float_scope.



End FutureValueRoundTrip.

(* ===================================================================== *)
(** * Further evaluations                                                 *)
(* ===================================================================== *)

Section MoreEvaluations.
Local Open Scope float_scope.
Local Existing Instance JS.reference.

Lemma no_period_throws_witness :
  calculateInterestRate savings_state 250 (-250) (-0) 0
  = Throw did_not_converge.
Proof.
  apply (no_period_throws savings_state 250 (-250) (-0) 0).
  vm_compute. reflexivity.
Defined.

Lemma solveFor_idempotent_witness :
  solveFor solved_savings Key.futureValue = Normal solved_savings.
Proof.
  apply (solveFor_idempotent (fresh savings_state) solved_savings).
  vm_compute. reflexivity.
Defined.

Lemma solveFor_frame_witness :
  get_field solved_savings.(state) Key.presentValue = "-1000"%string
  /\ highlight solved_savings Key.futureValue = "bg-yellow-100"%string
  /\ highlight solved_savings Key.payment = ""%string.
Proof.
  assert (E : solveFor (fresh savings_state) Key.futureValue
              = Normal solved_savings) by (vm_compute; reflexivity).
  destruct (solveFor_frame (fresh savings_state) solved_savings
              Key.futureValue E) as (Htexts & _ & Hlight & _).
  split; [|split].
  - rewrite (Htexts Key.presentValue); reflexivity.
  - rewrite Hlight. reflexivity.
  - rewrite Hlight. reflexivity.
Defined.

(** The rate field of [rate_state] is empty: its present value is NaN. *)
Lemma nan_input_stores_NaN_witness :
  solveFor (fresh rate_state) Key.presentValue
  = Normal {| state := set_field rate_state Key.presentValue "NaN";
              lastSolved := Some Key.presentValue |}.
Proof.
  apply (nan_input_stores_NaN (fresh rate_state) Key.presentValue
           Key.interestRate).
  - reflexivity.
  - reflexivity.
  - vm_compute. reflexivity.
Defined.

(** The future value of [savings_state] is empty: no rate can be found. *)
Lemma nan_input_rate_throws_witness :
  solveFor (fresh savings_state) Key.interestRate = Throw did_not_converge.
Proof.
  apply (nan_input_rate_throws (fresh savings_state) Key.futureValue).
  - reflexivity.
  - vm_compute. reflexivity.
Defined.

Lemma tvm_df_is_derivative_witness :
  (derivable_pt_lim (fun x => @tvm_f R real_arith (-100) 200 1 0 x) 1
     (@tvm_df R real_arith (-100) 1 0 1))%R.
Proof.
  apply (tvm_df_is_derivative (-100) 200 1 0 1)%R. lra.
Defined.

Lemma closed_forms_solve_identity_witness :
  (@tvm_f R real_arith (-100)
     (@futureValue_formula R real_arith (-100) 0 1 1) 1 0 1 = 0)%R.
Proof.
  apply (closed_forms_solve_identity (-100) 200 1 1 0)%R; lra.
Defined.

Lemma zero_rate_periods_NaN_witness :
  solveFor (fresh zero_rate_state) Key.numberOfPeriods
  = Normal {| state := set_field zero_rate_state Key.numberOfPeriods "NaN";
              lastSolved := Some Key.numberOfPeriods |}.
Proof.
  apply (zero_rate_periods_NaN (fresh zero_rate_state)).
  vm_compute. reflexivity.
Defined.

Lemma amounts_scale_witness :
  (@tvm_f R real_arith (2 * -100) (2 * 200) 1 (2 * 0) 1
   = 2 * @tvm_f R real_arith (-100) 200 1 0 1)%R.
Proof.
  apply (amounts_scale 2 (-100) 200 0 1 1)%R. lra.
Defined.


End MoreEvaluations.
